(** * env-types-validator: a shallow embedding of [src/index.ts]

    The development follows the source file top to bottom:
    [parseTypeString], [validateValue], [createEnvValidator], [defineEnv]
    and [validateEnv], preceded by the pieces of the JavaScript runtime
    they call ([String.prototype.endsWith], [slice], [toLowerCase],
    [Number], [isNaN]).

    Modelling conventions.
    - A JavaScript string is a Rocq [string] holding its UTF-8 bytes.  Every
      string operation the source performs acts on ASCII characters only
      (the trailing [?], the literals [true], [false], [1], [0]), where
      bytes and UTF-16 code units coincide.
    - A JavaScript number is a binary64 value, [spec_float] with
      [prec = 53] and [emax = 1024].
    - The environment is an object whose own properties hold a string or
      [undefined] and whose prototype is [Object.prototype] (an object
      literal, [process.env]) or [null].  A read [env[key]] follows the
      prototype chain: where the object has no property [key] of its own
      it gives the member of [Object.prototype] of that name, if there is
      one.  The [values] object is created by [{}]: a write at [__proto__]
      runs the setter inherited from [Object.prototype] and creates no own
      property.  The schema is the list that [Object.entries(schema)]
      enumerates, in that order.
    - Code that may throw lives in the [Completion] monad; [try]/[catch] is
      [try_catch].  [JSON.parse] and the ambient [process.env] belong to the
      host and are section variables. *)

From Stdlib Require Import ZArith Ascii String List Lia.
From Stdlib Require Import Floats.SpecFloat.
From Stdlib Require Import Decimal DecimalString DecimalPos DecimalN.
From stdpp Require Import base option list strings gmap fin_maps.

Open Scope string_scope.
Open Scope list_scope.

(** ** JavaScript values and completions *)

Unset Elimination Schemes.
Inductive JsValue : Type :=
| VUndefined
| VNull
| VBool (b : bool)
| VNum (x : spec_float)
| VStr (s : string)
| VArr (items : list JsValue)
| VObj (props : list (string * JsValue))
| VBuiltin (name : string)
| VObjectPrototype.
Set Elimination Schemes.

Inductive Thrown : Type :=
| ThrowError (message : string)
| ThrowSyntaxError (message : string)
| ThrowTypeError (message : string)
| ThrowValue (v : JsValue).

Inductive Completion (A : Type) : Type :=
| Normal (a : A)
| Abrupt (e : Thrown).
Arguments Normal {A} a.
Arguments Abrupt {A} e.

Definition bind {A B} (c : Completion A) (k : A -> Completion B) : Completion B :=
  match c with
  | Normal a => k a
  | Abrupt e => Abrupt e
  end.

Definition try_catch {A} (body : Completion A) (handler : Thrown -> Completion A)
  : Completion A :=
  match body with
  | Normal a => Normal a
  | Abrupt e => handler e
  end.

Declare Scope completion_scope.
Delimit Scope completion_scope with completion.
Notation "x <- c ;; k" := (bind c (fun x => k))
  (at level 100, c at next level, right associativity) : completion_scope.

(** [for (const x of l) body], threading the loop state. *)
Fixpoint for_of {S A} (body : S -> A -> Completion S) (l : list A) (s : S)
  : Completion S :=
  match l with
  | [] => Normal s
  | x :: l' => bind (body s x) (for_of body l')
  end.

(** ** Strings *)

Module JsString.

Definition code (c : ascii) : nat := nat_of_ascii c.

(** [s.endsWith(searchString)] *)
Definition endsWith (s searchString : string) : bool :=
  let n := String.length searchString in
  if (n <=? String.length s)%nat
  then String.eqb (substring (String.length s - n) n s) searchString
  else false.

(** [s.slice(start, end)] with the relative-index clamping of the
    language definition. *)
Definition slice (s : string) (start end_ : Z) : string :=
  let len := Z.of_nat (String.length s) in
  let from := if (start <? 0)%Z then Z.max (len + start) 0 else Z.min start len in
  let to := if (end_ <? 0)%Z then Z.max (len + end_) 0 else Z.min end_ len in
  substring (Z.to_nat from) (Z.to_nat (Z.max (to - from) 0)) s.

(** [toLowerCase] on one byte: only [A]-[Z] are ASCII letters with a lower
    case; bytes of multi-byte characters are kept (no character outside
    ASCII has a lower case that contains one of the letters of [true] or
    [false]). *)
Definition lower_char (c : ascii) : ascii :=
  if ((65 <=? code c) && (code c <=? 90))%nat
  then ascii_of_nat (code c + 32)
  else c.

Fixpoint toLowerCase (s : string) : string :=
  match s with
  | EmptyString => EmptyString
  | String c s' => String (lower_char c) (toLowerCase s')
  end.

(** The one-character string holding a double quote. *)
Definition dquote : string := String (ascii_of_nat 34) EmptyString.

(** Case-insensitive match against a word [w] of lower-case ASCII letters:
    character by character, the same letter or its capital. *)
Definition same_letter (x y : ascii) : Prop :=
  x = y ∨ (code x + 32 = code y)%nat.

Fixpoint ci_match (s w : string) : Prop :=
  match s, w with
  | EmptyString, EmptyString => True
  | String x s', String y w' => same_letter x y ∧ ci_match s' w'
  | _, _ => False
  end.

Fixpoint lower_word (w : string) : Prop :=
  match w with
  | EmptyString => True
  | String y w' => (97 <= code y <= 122)%nat ∧ lower_word w'
  end.

(** [separator]-joined concatenation, [Array.prototype.join]. *)
Fixpoint join (separator : string) (l : list string) : string :=
  match l with
  | [] => ""
  | [x] => x
  | x :: l' => x +:+ separator +:+ join separator l'
  end.

(** [haystack.includes(needle)], used to state what a reason contains. *)
Fixpoint includes (haystack needle : string) : bool :=
  String.prefix needle haystack ||
  match haystack with
  | EmptyString => false
  | String _ rest => includes rest needle
  end.

End JsString.

(** ** Numbers: [Number(string)] and [isNaN] *)

Module JsNumber.

Import JsString.

Definition prec : Z := 53.
Definition emax : Z := 1024.

Definition NaN : spec_float := S754_nan.
Definition of_N (n : N) : spec_float := binary_normalize prec emax (Z.of_N n) 0 false.

Definition isNaN (x : spec_float) : bool :=
  match x with
  | S754_nan => true
  | _ => false
  end.

(** *** White space

    [StrWhiteSpaceChar] is [WhiteSpace] or [LineTerminator]: TAB, LF, VT,
    FF, CR, SP, and in UTF-8 the two-byte NBSP and the three-byte
    U+1680, U+2000..U+200A, U+2028, U+2029, U+202F, U+205F, U+3000 and
    U+FEFF. *)
Definition ws1 (c : ascii) : bool :=
  ((9 <=? code c) && (code c <=? 13) || (code c =? 32))%nat.

Definition ws2 (c1 c2 : ascii) : bool :=
  ((code c1 =? 194) && (code c2 =? 160))%nat.

Definition ws3 (c1 c2 c3 : ascii) : bool :=
  ((code c1 =? 225) && (code c2 =? 154) && (code c3 =? 128)
   || (code c1 =? 226) && (code c2 =? 128)
      && ((128 <=? code c3) && (code c3 <=? 138)
          || (code c3 =? 168) || (code c3 =? 169) || (code c3 =? 175))
   || (code c1 =? 226) && (code c2 =? 129) && (code c3 =? 159)
   || (code c1 =? 227) && (code c2 =? 128) && (code c3 =? 128)
   || (code c1 =? 239) && (code c2 =? 187) && (code c3 =? 191))%nat.

Inductive StrWhiteSpace : list ascii -> Prop :=
| sws_nil : StrWhiteSpace []
| sws_1 c l : ws1 c = true -> StrWhiteSpace l -> StrWhiteSpace (c :: l)
| sws_2 c1 c2 l :
    ws2 c1 c2 = true -> StrWhiteSpace l -> StrWhiteSpace (c1 :: c2 :: l)
| sws_3 c1 c2 c3 l :
    ws3 c1 c2 c3 = true -> StrWhiteSpace l -> StrWhiteSpace (c1 :: c2 :: c3 :: l).

Fixpoint trimStart (l : list ascii) : list ascii :=
  match l with
  | [] => []
  | c1 :: l1 =>
      if ws1 c1 then trimStart l1 else
      match l1 with
      | [] => l
      | c2 :: l2 =>
          if ws2 c1 c2 then trimStart l2 else
          match l2 with
          | [] => l
          | c3 :: l3 => if ws3 c1 c2 c3 then trimStart l3 else l
          end
      end
  end.

(** The same scan over the reversed text: the bytes of a character arrive
    last byte first. *)
Fixpoint trimStart_rev (l : list ascii) : list ascii :=
  match l with
  | [] => []
  | c1 :: l1 =>
      if ws1 c1 then trimStart_rev l1 else
      match l1 with
      | [] => l
      | c2 :: l2 =>
          if ws2 c2 c1 then trimStart_rev l2 else
          match l2 with
          | [] => l
          | c3 :: l3 => if ws3 c3 c2 c1 then trimStart_rev l3 else l
          end
      end
  end.

Definition trimEnd (l : list ascii) : list ascii := rev (trimStart_rev (rev l)).

Definition trim (l : list ascii) : list ascii := trimEnd (trimStart l).

(** *** Digits *)

Definition digit (radix : N) (c : ascii) : option N :=
  let n := N.of_nat (code c) in
  let v :=
    if ((48 <=? n) && (n <=? 57))%N then Some (n - 48)%N
    else if ((97 <=? n) && (n <=? 102))%N then Some (n - 87)%N
    else if ((65 <=? n) && (n <=? 70))%N then Some (n - 55)%N
    else None in
  match v with
  | Some d => if (d <? radix)%N then Some d else None
  | None => None
  end.

(** Value of a digit string read left to right; [None] on a foreign
    character. *)
Fixpoint digits_from (radix acc : N) (l : list ascii) : option N :=
  match l with
  | [] => Some acc
  | c :: l' =>
      match digit radix c with
      | Some d => digits_from radix (acc * radix + d)%N l'
      | None => None
      end
  end.

(** A non-empty digit string. *)
Definition digits (radix : N) (l : list ascii) : option N :=
  match l with
  | [] => None
  | _ => digits_from radix 0 l
  end.

(** Longest prefix of decimal digits, and what follows it. *)
Fixpoint span_digits (l : list ascii) : list ascii * list ascii :=
  match l with
  | c :: l' =>
      match digit 10 c with
      | Some _ => let '(ds, rest) := span_digits l' in (c :: ds, rest)
      | None => ([], l)
      end
  | [] => ([], [])
  end.

(** *** Rounding a decimal to binary64

    [(-1)^s * m * 10^e] rounded to nearest, ties to even. *)
Definition round_decimal (s : bool) (m : N) (e : Z) : spec_float :=
  match m with
  | N0 => S754_zero s
  | Npos p =>
      if (0 <=? e)%Z
      then binary_round prec emax s (p * Z.to_pos (10 ^ e))%positive 0
      else
        let '(q, eq, loc) :=
          SFdiv_core_binary prec emax (Zpos p) 0 (10 ^ (- e))%Z 0 in
        binary_round_aux prec emax s q eq loc
  end.

(** *** The grammar [StringNumericLiteral] *)

(** [0x], [0o], [0b] literals (no sign). *)
Definition NonDecimalIntegerLiteral (l : list ascii) : option N :=
  match l with
  | z :: p :: ds =>
      if (code z =? 48)%nat then
        if ((code p =? 120) || (code p =? 88))%nat then digits 16 ds
        else if ((code p =? 111) || (code p =? 79))%nat then digits 8 ds
        else if ((code p =? 98) || (code p =? 66))%nat then digits 2 ds
        else None
      else None
  | _ => None
  end.

(** [ExponentPart], optional: the exponent, [0] when absent. *)
Definition ExponentPart (l : list ascii) : option Z :=
  match l with
  | [] => Some 0%Z
  | c :: l' =>
      if ((code c =? 101) || (code c =? 69))%nat then
        match l' with
        | sg :: ds =>
            if (code sg =? 43)%nat then Z.of_N <$> digits 10 ds
            else if (code sg =? 45)%nat then (fun n => (- Z.of_N n)%Z) <$> digits 10 ds
            else Z.of_N <$> digits 10 l'
        | [] => None
        end
      else None
  end.

(** [StrUnsignedDecimalLiteral] *)
Definition StrUnsignedDecimalLiteral (s : bool) (l : list ascii) : option spec_float :=
  if String.eqb (string_of_list_ascii l) "Infinity" then Some (S754_infinity s)
  else
    let '(ip, r1) := span_digits l in
    let '(fp, r2) :=
      match r1 with
      | c :: r => if (code c =? 46)%nat then span_digits r else ([], r1)
      | [] => ([], r1)
      end in
    match (ip ++ fp)%list with
    | [] => None
    | ds =>
        m ← digits_from 10 0 ds;
        e ← ExponentPart r2;
        Some (round_decimal s m (e - Z.of_nat (length fp)))
    end.

(** [StrDecimalLiteral]: an optional sign first. *)
Definition StrDecimalLiteral (l : list ascii) : option spec_float :=
  match l with
  | c :: l' =>
      if (code c =? 43)%nat then StrUnsignedDecimalLiteral false l'
      else if (code c =? 45)%nat then StrUnsignedDecimalLiteral true l'
      else StrUnsignedDecimalLiteral false l
  | [] => None
  end.

(** [StringToNumber]: white space only is [+0]; text outside the grammar
    is [NaN]. *)
Definition StringToNumber (str : string) : spec_float :=
  match trim (list_ascii_of_string str) with
  | [] => S754_zero false
  | l =>
      match NonDecimalIntegerLiteral l with
      | Some n => of_N n
      | None => default NaN (StrDecimalLiteral l)
      end
  end.

(** A text that starts and ends with an ASCII character that is no white
    space is left alone. *)
Definition bare (l : list ascii) : Prop :=
  (∃ c, head l = Some c ∧ (32 < code c < 128)%nat)
  ∧ (∃ c, last l = Some c ∧ (32 < code c < 128)%nat).

(** The decimal numeral of a natural number, and what its characters are. *)
Definition decimal (n : N) : string := NilEmpty.string_of_uint (N.to_uint n).

Definition is_digit (c : ascii) : Prop := (48 <= code c <= 57)%nat.

(** The integer a number is equal to, when it is one. *)
Definition integer_value (x : spec_float) : option Z :=
  match x with
  | S754_zero _ => Some 0%Z
  | S754_finite s m e =>
      let n := if s then Zneg m else Zpos m in
      if (0 <=? e)%Z then Some (n * 2 ^ e)%Z
      else if (Zpos m mod 2 ^ (- e) =? 0)%Z then Some (n / 2 ^ (- e))%Z
      else None
  | _ => None
  end.

(** [Number(value)] applied to a string. *)
Definition Number (value : string) : spec_float := StringToNumber value.

End JsNumber.

(** ** Objects *)

(** The members an object inherits from [Object.prototype]: its built-in
    functions, and through the accessor [__proto__] the prototype itself. *)
Inductive Member : Type :=
| Builtin (name : string)
| ThePrototype.

(** [String(member)], as Node prints it. *)
Definition Member_text (m : Member) : string :=
  match m with
  | Builtin name => "function " +:+ name +:+ "() { [native code] }"
  | ThePrototype => "[object Object]"
  end.

(** What a read [env[key]] can give: nothing, an own string, or an
    inherited member. *)
Inductive PropertyValue : Type :=
| PUndefined
| PString (s : string)
| PInherited (m : Member).

Definition to_value (value : PropertyValue) : JsValue :=
  match value with
  | PUndefined => VUndefined
  | PString s => VStr s
  | PInherited (Builtin name) => VBuiltin name
  | PInherited ThePrototype => VObjectPrototype
  end.

(** [String(value)], the text a template literal inserts. *)
Definition PropertyValue_text (value : PropertyValue) : string :=
  match value with
  | PUndefined => "undefined"
  | PString s => s
  | PInherited m => Member_text m
  end.

(** The function-valued properties of [Object.prototype] other than
    [constructor], each named after its key. *)
Definition Object_prototype_functions : list string :=
  ["__defineGetter__"; "__defineSetter__"; "hasOwnProperty";
   "__lookupGetter__"; "__lookupSetter__"; "isPrototypeOf";
   "propertyIsEnumerable"; "toString"; "valueOf"; "toLocaleString"].

(** Every key that [Object.prototype] answers. *)
Definition Object_prototype_keys : list string :=
  "__proto__" :: "constructor" :: Object_prototype_functions.

(** A read of [key] that reaches [Object.prototype]: the getter of
    [__proto__] gives the prototype of the object read, [constructor] is
    the function [Object]. *)
Definition Object_prototype_get (key : string) : PropertyValue :=
  if String.eqb key "__proto__" then PInherited ThePrototype
  else if String.eqb key "constructor" then PInherited (Builtin "Object")
  else if existsb (String.eqb key) Object_prototype_functions
       then PInherited (Builtin key)
  else PUndefined.

Inductive Prototype : Type :=
| ObjectPrototype
| NullPrototype.

(** The environment object: its own properties that hold a string, the
    keys of its own properties that hold [undefined], and its prototype. *)
Module Env.
Record t : Type := mk {
  own : gmap string string;
  undefined_keys : gset string;
  prototype : Prototype;
}.

(** [env[key]] *)
Definition get (env : t) (key : string) : PropertyValue :=
  match own env !! key with
  | Some s => PString s
  | None =>
      if decide (key ∈ undefined_keys env) then PUndefined
      else
        match prototype env with
        | ObjectPrototype => Object_prototype_get key
        | NullPrototype => PUndefined
        end
  end.

(** An ordinary object, one whose prototype is [Object.prototype], with
    the given own properties. *)
Definition ordinary (own : gmap string string) : t := mk own ∅ ObjectPrototype.

(** The same object without the own properties whose key is not listed. *)
Definition restrict (keys : list string) (env : t) : t :=
  mk (filter (λ kv, kv.1 ∈ keys) (own env))
     (filter (λ key, key ∈ keys) (undefined_keys env))
     (prototype env).
End Env.

(** The object [values], created by [{}]. *)
Module Values.
Record t : Type := mk {
  bound : gmap string JsValue;
  prototype : JsValue;
}.

(** [{}] *)
Definition empty : t := mk ∅ VObjectPrototype.

Definition is_object_or_null (v : JsValue) : bool :=
  match v with
  | VNull | VArr _ | VObj _ | VBuiltin _ | VObjectPrototype => true
  | VUndefined | VBool _ | VNum _ | VStr _ => false
  end.

(** Whether a write at [__proto__] on an object with this prototype finds
    the setter of [Object.prototype]: not under [null], and not under an
    object with a property of that name of its own. *)
Definition reaches_setter (prototype : JsValue) : bool :=
  match prototype with
  | VNull => false
  | VObj props => negb (existsb (λ p, String.eqb p.1 "__proto__") props)
  | _ => true
  end.

(** [values[key] = v].  At [__proto__] the inherited setter runs: it makes
    an object or [null] the prototype and ignores every other value; no
    own property is created.  Any other write creates or updates an own
    property: what can be the prototype here ([Object.prototype], [null],
    an array or object from [JSON.parse]) has writable data properties
    only. *)
Definition set (values : t) (key : string) (v : JsValue) : t :=
  if String.eqb key "__proto__" && reaches_setter (prototype values) then
    if is_object_or_null v then mk (bound values) v else values
  else mk (<[key := v]> (bound values)) (prototype values).
End Values.

(** ** The types of [src/types.ts] *)

(** [received] holds what the read [env[key]] gave, whatever it is. *)
Module ValidationError.
Record t : Type := mk {
  key : string;
  expected : string;
  received : PropertyValue;
  reason : string;
}.
End ValidationError.

Module ValidationResult.
Record t : Type := mk {
  valid : bool;
  errors : list ValidationError.t;
  values : Values.t;
}.
End ValidationResult.

Module ValidatorOptions.
(** [onError] is caller code: it acts on the caller's world [W] and may
    itself throw. *)
Record t (W : Type) : Type := mk {
  throwOnError : option bool;
  env : option Env.t;
  onError : option (list ValidationError.t -> W -> W * Completion unit);
}.
Arguments mk {W}.
Arguments throwOnError {W}.
Arguments env {W}.
Arguments onError {W}.

(** The object literal [{}]. *)
Definition empty {W} : t W := mk None None None.
End ValidatorOptions.

(** The schema, as [Object.entries] lists it.  An object holds each key
    once: the statements that count the entries of a key assume
    [NoDup schema.*1]. *)
Abbreviation EnvSchema := (list (string * string)).

(** Result of [parseTypeString]. *)
Module TypeString.
Record t : Type := mk {
  type : string;
  optional : bool;
}.
End TypeString.

(** Result of [validateValue]. *)
Module Validation.
Record t : Type := mk {
  valid : bool;
  parsed : JsValue;
  reason : option string;
}.
End Validation.

(** ** [src/index.ts] *)

(** The [TypeError] of calling [toLowerCase] on a value that has none. *)
Definition no_toLowerCase : Thrown :=
  ThrowTypeError "value.toLowerCase is not a function".

Section Validator.

Import JsString JsNumber.
Local Open Scope completion_scope.

(** [JSON.parse]: a value, or a thrown [SyntaxError]. *)
Variable JSON_parse : string -> Completion JsValue.

(** [process.env] *)
Variable process_env : Env.t.

(** [!value] *)
Definition falsy (value : PropertyValue) : bool :=
  match value with
  | PUndefined => true
  | PString s => String.eqb s ""
  | PInherited _ => false
  end.

(** [reason || fallback] *)
Definition or_else (reason : option string) (fallback : string) : string :=
  match reason with
  | Some s => if String.eqb s "" then fallback else s
  | None => fallback
  end.

Definition parseTypeString (typeStr : string) : TypeString.t :=
  let isOptional := endsWith typeStr "?" in
  let baseType := if isOptional then slice typeStr 0 (-1) else typeStr in
  {| TypeString.type := baseType; TypeString.optional := isOptional |}.

(** [validateValue] on the values its signature admits, [string] and
    [undefined]. *)
Definition validateValue (value : option string) (expectedType : string)
  : Completion Validation.t :=
  match value with
  | None =>
      Normal (Validation.mk false VUndefined (Some "Value is empty or undefined"))
  | Some value =>
      if String.eqb value "" then
        Normal (Validation.mk false VUndefined (Some "Value is empty or undefined"))
      else if String.eqb expectedType "string" then
        Normal (Validation.mk true (VStr value) None)
      else if String.eqb expectedType "number" then
        let num := Number value in
        if isNaN num then
          Normal (Validation.mk false VUndefined
                    (Some (dquote +:+ value +:+ dquote +:+ " is not a valid number")))
        else Normal (Validation.mk true (VNum num) None)
      else if String.eqb expectedType "boolean" then
        if String.eqb (toLowerCase value) "true" || String.eqb value "1" then
          Normal (Validation.mk true (VBool true) None)
        else if String.eqb (toLowerCase value) "false" || String.eqb value "0" then
          Normal (Validation.mk true (VBool false) None)
        else
          Normal (Validation.mk false VUndefined
                    (Some (dquote +:+ value +:+ dquote
                           +:+ " is not a valid boolean (use 'true', 'false', '1', or '0')")))
      else if String.eqb expectedType "json" then
        try_catch
          (parsed <- JSON_parse value ;;
           Normal (Validation.mk true parsed None))
          (fun e =>
             Normal (Validation.mk false VUndefined
                       (Some (dquote +:+ value +:+ dquote +:+ " is not valid JSON"))))
      else
        Normal (Validation.mk false VUndefined (Some ("Unknown type: " +:+ expectedType)))
  end.

(** [validateValue] on whatever [env[key]] hands it.  On a string or
    [undefined] it is the function above.  An inherited member is an
    object: it is neither [undefined] nor [''], it is returned as it is
    under [string], [Number] and [JSON.parse] and the template literals
    see its text, and it has no method [toLowerCase], so the call under
    [boolean] throws a [TypeError]. *)
Definition validateValue_any (value : PropertyValue) (expectedType : string)
  : Completion Validation.t :=
  match value with
  | PUndefined => validateValue None expectedType
  | PString s => validateValue (Some s) expectedType
  | PInherited m =>
      if String.eqb expectedType "string" then
        Normal (Validation.mk true (to_value value) None)
      else if String.eqb expectedType "number" then
        let num := Number (Member_text m) in
        if isNaN num then
          Normal (Validation.mk false VUndefined
                    (Some (dquote +:+ Member_text m +:+ dquote
                           +:+ " is not a valid number")))
        else Normal (Validation.mk true (VNum num) None)
      else if String.eqb expectedType "boolean" then
        Abrupt no_toLowerCase
      else if String.eqb expectedType "json" then
        try_catch
          (parsed <- JSON_parse (Member_text m) ;;
           Normal (Validation.mk true parsed None))
          (fun e =>
             Normal (Validation.mk false VUndefined
                       (Some (dquote +:+ Member_text m +:+ dquote
                              +:+ " is not valid JSON"))))
      else
        Normal (Validation.mk false VUndefined (Some ("Unknown type: " +:+ expectedType)))
  end.

(** The loop state: the arrays and objects the loops fill, [errors] and
    [values]. *)
Abbreviation LoopState := (list ValidationError.t * Values.t)%type.

(** Body of the loop of [createEnvValidator]. *)
Definition createEnvValidator_body (env : Env.t) (st : LoopState)
  (entry : string * string) : Completion LoopState :=
  let '(errors, values) := st in
  let '(key, typeStr) := entry in
  let p := parseTypeString typeStr in
  let type := TypeString.type p in
  let optional := TypeString.optional p in
  let value := Env.get env key in
  if falsy value && negb optional then
    Normal (errors ++ [ValidationError.mk key typeStr value
                         ("Required environment variable " +:+ dquote +:+ key
                          +:+ dquote +:+ " is missing")],
            values)
  else if falsy value && optional then
    Normal (errors, Values.set values key VUndefined)
  else
    validation <- validateValue_any value type ;;
    if negb (Validation.valid validation) then
      Normal (errors ++ [ValidationError.mk key typeStr value
                           (or_else (Validation.reason validation) "Validation failed")],
              values)
    else
      Normal (errors, Values.set values key (Validation.parsed validation)).

(** The loop of [createEnvValidator], from [const errors = []] to its end. *)
Definition createEnvValidator_loop (schema : EnvSchema) (env : Env.t)
  : Completion LoopState :=
  for_of (createEnvValidator_body env) schema ([], Values.empty).

(** [errors.map((e) => ...).join('\n')], the bullet list of the message. *)
Definition errorMessage (errors : list ValidationError.t) : string :=
  join (String (ascii_of_nat 10) "")
    (map (fun e => "  • " +:+ ValidationError.key e +:+ ": "
                   +:+ ValidationError.reason e) errors).

Definition fullMessage (errors : list ValidationError.t) : string :=
  "Environment validation failed:" +:+ String (ascii_of_nat 10) ""
  +:+ errorMessage errors.

Definition createEnvValidator {W : Type} (schema : EnvSchema)
  (options : option (ValidatorOptions.t W)) (w : W)
  : W * Completion Values.t :=
  let options := default ValidatorOptions.empty options in
  let throwOnError := default true (ValidatorOptions.throwOnError options) in
  let env := default process_env (ValidatorOptions.env options) in
  let onError := ValidatorOptions.onError options in
  match createEnvValidator_loop schema env with
  | Abrupt e => (w, Abrupt e)
  | Normal (errors, values) =>
      if (0 <? length errors)%nat then
        let fullMessage := fullMessage errors in
        let '(w1, called) :=
          match onError with
          | Some onError => onError errors w
          | None => (w, Normal tt)
          end in
        match called with
        | Abrupt e => (w1, Abrupt e)
        | Normal _ =>
            if throwOnError then (w1, Abrupt (ThrowError fullMessage))
            else (w1, Normal values)
        end
      else (w, Normal values)
  end.

Definition defineEnv {W : Type} (schema : EnvSchema)
  (options : option (ValidatorOptions.t W)) (w : W)
  : W * Completion Values.t :=
  createEnvValidator schema options w.

(** Body of the loop of [validateEnv]. *)
Definition validateEnv_body (env : Env.t) (st : LoopState)
  (entry : string * string) : Completion LoopState :=
  let '(errors, values) := st in
  let '(key, typeStr) := entry in
  let p := parseTypeString typeStr in
  let type := TypeString.type p in
  let optional := TypeString.optional p in
  let value := Env.get env key in
  if falsy value && negb optional then
    Normal (errors ++ [ValidationError.mk key typeStr value
                         ("Required: " +:+ dquote +:+ key +:+ dquote +:+ " is missing")],
            values)
  else if falsy value && optional then
    Normal (errors, Values.set values key VUndefined)
  else
    validation <- validateValue_any value type ;;
    if negb (Validation.valid validation) then
      Normal (errors ++ [ValidationError.mk key typeStr value
                           (or_else (Validation.reason validation) "Validation failed")],
              values)
    else
      Normal (errors, Values.set values key (Validation.parsed validation)).

Definition validateEnv (schema : EnvSchema) (env : option Env.t)
  : Completion ValidationResult.t :=
  let env := default process_env env in
  st <- for_of (validateEnv_body env) schema ([], Values.empty) ;;
  let '(errors, values) := st in
  Normal {| ValidationResult.valid := (length errors =? 0)%nat;
            ValidationResult.errors := errors;
            ValidationResult.values := values |}.

(** A callback that records the list it is called with and returns. *)
Definition record_call (errors : list ValidationError.t)
  (log : list (list ValidationError.t))
  : list (list ValidationError.t) * Completion unit :=
  (log ++ [errors], Normal tt).

(** *** The per-key loop, read once

    The two loops differ in one string.  [per_key_body] is their common
    text with that string as a parameter; [verdict] names the ways an
    entry can go. *)

Definition missing_createEnvValidator (key : string) : string :=
  "Required environment variable " +:+ dquote +:+ key +:+ dquote +:+ " is missing".

Definition missing_validateEnv (key : string) : string :=
  "Required: " +:+ dquote +:+ key +:+ dquote +:+ " is missing".

Definition per_key_body (missing : string -> string) (env : Env.t)
  (st : LoopState) (entry : string * string) : Completion LoopState :=
  let '(errors, values) := st in
  let '(key, typeStr) := entry in
  let p := parseTypeString typeStr in
  let type := TypeString.type p in
  let optional := TypeString.optional p in
  let value := Env.get env key in
  if falsy value && negb optional then
    Normal (errors ++ [ValidationError.mk key typeStr value (missing key)], values)
  else if falsy value && optional then
    Normal (errors, Values.set values key VUndefined)
  else
    validation <- validateValue_any value type ;;
    if negb (Validation.valid validation) then
      Normal (errors ++ [ValidationError.mk key typeStr value
                           (or_else (Validation.reason validation) "Validation failed")],
              values)
    else
      Normal (errors, Values.set values key (Validation.parsed validation)).

Inductive Verdict : Type :=
| Missing
| Absent
| Rejected (reason : string)
| Accepted (parsed : JsValue)
| Raised (e : Thrown).

Definition verdict (env : Env.t) (entry : string * string) : Verdict :=
  let p := parseTypeString entry.2 in
  let value := Env.get env entry.1 in
  if falsy value then
    if TypeString.optional p then Absent else Missing
  else
    match validateValue_any value (TypeString.type p) with
    | Normal validation =>
        if Validation.valid validation
        then Accepted (Validation.parsed validation)
        else Rejected (or_else (Validation.reason validation) "Validation failed")
    | Abrupt e => Raised e
    end.

Definition entry_error (missing : string -> string) (env : Env.t)
  (entry : string * string) : option ValidationError.t :=
  match verdict env entry with
  | Missing =>
      Some (ValidationError.mk entry.1 entry.2 (Env.get env entry.1)
              (missing entry.1))
  | Rejected reason =>
      Some (ValidationError.mk entry.1 entry.2 (Env.get env entry.1) reason)
  | _ => None
  end.

Definition entry_value (env : Env.t) (entry : string * string)
  : option JsValue :=
  match verdict env entry with
  | Absent => Some VUndefined
  | Accepted parsed => Some parsed
  | _ => None
  end.

Definition store_value (env : Env.t) (values : Values.t)
  (entry : string * string) : Values.t :=
  match entry_value env entry with
  | Some v => Values.set values entry.1 v
  | None => values
  end.

(** What the first entry that throws, if any, throws. *)
Fixpoint first_raised (env : Env.t) (schema : EnvSchema) : option Thrown :=
  match schema with
  | [] => None
  | entry :: rest =>
      match verdict env entry with
      | Raised e => Some e
      | _ => first_raised env rest
      end
  end.

(** *** Names used by the statements below *)

(** The entries on which [validateValue] throws: the base tag is [boolean]
    and the read gives an inherited member. *)
Definition throws_on (env : Env.t) (entry : string * string) : bool :=
  match Env.get env entry.1 with
  | PInherited _ =>
      String.eqb (TypeString.type (parseTypeString entry.2)) "boolean"
  | _ => false
  end.

(** No entry of the schema makes [validateValue] throw. *)
Definition no_throw (env : Env.t) (schema : EnvSchema) : Prop :=
  Forall (λ entry, throws_on env entry = false) schema.

(** The reason of a failed [boolean] coercion. *)
Definition boolean_reason (value : string) : string :=
  dquote +:+ value +:+ dquote
  +:+ " is not a valid boolean (use 'true', 'false', '1', or '0')".

(** The reason of a failed [number] coercion. *)
Definition number_reason (value : string) : string :=
  dquote +:+ value +:+ dquote +:+ " is not a valid number".

(** The line of one error in the composite message. *)
Definition bullet_line (e : ValidationError.t) : string :=
  "  • " +:+ ValidationError.key e +:+ ": " +:+ ValidationError.reason e.

(** The reason of a failed [json] coercion. *)
Definition json_reason (value : string) : string :=
  dquote +:+ value +:+ dquote +:+ " is not valid JSON".

(** The four tags [validateValue] has a case for. *)
Definition known_tag (tag : string) : Prop :=
  tag = "string" ∨ tag = "number" ∨ tag = "boolean" ∨ tag = "json".

(** Two error records that agree on key, descriptor and raw value, and on
    the reason unless both report a falsy raw value as missing, each in its
    own words. *)
Definition same_error (e1 e2 : ValidationError.t) : Prop :=
  ValidationError.key e1 = ValidationError.key e2
  ∧ ValidationError.expected e1 = ValidationError.expected e2
  ∧ ValidationError.received e1 = ValidationError.received e2
  ∧ (ValidationError.reason e1 = ValidationError.reason e2
     ∨ (falsy (ValidationError.received e1) = true
        ∧ ValidationError.reason e1 = missing_createEnvValidator (ValidationError.key e1)
        ∧ ValidationError.reason e2 = missing_validateEnv (ValidationError.key e2))).

(** The shapes an error record of a loop can have, [missing] being the
    loop's wording of the missing-value reason. *)
Definition error_shape (missing : string -> string) (env : Env.t)
  (e : ValidationError.t) : Prop :=
  let p := parseTypeString (ValidationError.expected e) in
  let value := ValidationError.received e in
  let raw := PropertyValue_text value in
  value = Env.get env (ValidationError.key e)
  ∧ ((falsy value = true
      ∧ TypeString.optional p = false
      ∧ ValidationError.reason e = missing (ValidationError.key e))
     ∨ (falsy value = false
        ∧ ((TypeString.type p = "number"
            ∧ isNaN (Number raw) = true
            ∧ ValidationError.reason e = number_reason raw)
           ∨ (TypeString.type p = "boolean"
              ∧ value = PString raw
              ∧ ¬ (ci_match raw "true" ∨ raw = "1")
              ∧ ¬ (ci_match raw "false" ∨ raw = "0")
              ∧ ValidationError.reason e = boolean_reason raw)
           ∨ (TypeString.type p = "json"
              ∧ (∃ thrown, JSON_parse raw = Abrupt thrown)
              ∧ ValidationError.reason e = json_reason raw)
           ∨ (¬ known_tag (TypeString.type p)
              ∧ ValidationError.reason e
                = "Unknown type: " +:+ TypeString.type p)))).

(** The shapes a value bound to [key] can have, given the descriptor of
    [key] in the schema. *)
Definition value_shape (env : Env.t) (key typeStr : string)
  (v : JsValue) : Prop :=
  let p := parseTypeString typeStr in
  let value := Env.get env key in
  let raw := PropertyValue_text value in
  (falsy value = true ∧ TypeString.optional p = true ∧ v = VUndefined)
  ∨ (falsy value = false
     ∧ ((TypeString.type p = "string" ∧ v = to_value value)
        ∨ (TypeString.type p = "number"
           ∧ v = VNum (Number raw) ∧ isNaN (Number raw) = false)
        ∨ (TypeString.type p = "boolean"
           ∧ value = PString raw
           ∧ ∃ b, v = VBool b ∧ (b = true ↔ ci_match raw "true" ∨ raw = "1")
                  ∧ (b = false ↔ ci_match raw "false" ∨ raw = "0"))
        ∨ (TypeString.type p = "json" ∧ JSON_parse raw = Normal v))).

End Validator.

(** A stand-in for the host's [JSON.parse] in the closed examples: it
    throws on every text. *)
Definition JSON_parse_sample (text : string) : Completion JsValue :=
  Abrupt (ThrowSyntaxError "Unexpected token").

(** Schemas and environments for the closed examples. *)
Definition example_schema : EnvSchema :=
  [("DATABASE_URL", "string"); ("API_KEY", "string"); ("PORT", "number");
   ("DEBUG", "boolean?")].

Definition example_env : Env.t :=
  Env.ordinary {[ "DATABASE_URL" := "postgres://localhost"; "PORT" := " " ]}.

(** The entries of [example_schema] with the first two exchanged. *)
Definition example_schema_swapped : EnvSchema :=
  [("API_KEY", "string"); ("DATABASE_URL", "string"); ("PORT", "number");
   ("DEBUG", "boolean?")].

Definition string_schema : EnvSchema :=
  [("DATABASE_URL", "string"); ("API_KEY", "string")].

Definition string_env : Env.t :=
  Env.ordinary {[ "DATABASE_URL" := "postgres://localhost"; "API_KEY" := "secret";
                 "PORT" := "5432" ]}.

(** The object [{}]. *)
Definition empty_env : Env.t := Env.ordinary ∅.

(** An environment whose one own property is [__proto__], as
    [JSON.parse] or a computed key makes it. *)
Definition proto_env : Env.t := Env.ordinary {[ "__proto__" := "x" ]}.

Definition proto_empty_env : Env.t := Env.ordinary {[ "__proto__" := "" ]}.

Definition proto_space_env : Env.t := Env.ordinary {[ "__proto__" := " " ]}.

(** An environment whose one variable is a single space. *)
Definition space_env : Env.t := Env.ordinary {[ "PORT" := " " ]}.

(** * Properties *)

(** ** Strings *)

Module JsStringFacts.
Import JsString.

Lemma length_snoc s c : String.length (s +:+ String c "") = S (String.length s).
Proof. induction s as [|a s IH]; simpl; congruence. Qed.

Lemma substring_prefix s t : substring 0 (String.length s) (s +:+ t) = s.
Proof.
  induction s as [|a s IH]; simpl.
  - by destruct t.
  - by rewrite IH.
Qed.

Lemma substring_last s c :
  substring (String.length s) 1 (s +:+ String c "") = String c "".
Proof. induction s as [|a s IH]; simpl; done. Qed.

Lemma snoc_cases s : s = "" ∨ ∃ b c, s = b +:+ String c "".
Proof.
  induction s as [|a s IH]; [by left | right].
  destruct IH as [-> | (b & c & ->)].
  - by exists "", a.
  - by exists (String a b), c.
Qed.

Lemma endsWith_snoc s c d :
  endsWith (s +:+ String c "") (String d "") = Ascii.eqb c d.
Proof.
  unfold endsWith. rewrite length_snoc. simpl String.length.
  replace (S (String.length s) - 1)%nat with (String.length s) by lia.
  rewrite substring_last. simpl.
  destruct (Ascii.eqb c d); done.
Qed.

Lemma slice_drop_last s c : slice (s +:+ String c "") 0 (-1) = s.
Proof.
  unfold slice. rewrite length_snoc.
  replace (0 <? 0)%Z with false by done.
  replace (-1 <? 0)%Z with true by done.
  replace (Z.min 0 (Z.of_nat (S (String.length s)))) with 0%Z by lia.
  replace (Z.to_nat (Z.max (Z.max (Z.of_nat (S (String.length s)) + -1) 0 - 0) 0))
    with (String.length s) by lia.
  apply substring_prefix.
Qed.

Lemma prefix_app a b : String.prefix a (a +:+ b) = true.
Proof.
  induction a as [|x a IH]; simpl.
  - by destruct b.
  - destruct (ascii_dec x x); [done | congruence].
Qed.

Lemma includes_prefix h n : String.prefix n h = true → includes h n = true.
Proof. intros H. destruct h; simpl in *; rewrite H; done. Qed.

Lemma includes_app_r a b n : includes b n = true → includes (a +:+ b) n = true.
Proof.
  intros H. induction a as [|x a IH]; simpl; [done |].
  rewrite IH. apply orb_true_r.
Qed.

Lemma includes_middle a v b : includes (a +:+ v +:+ b) v = true.
Proof. apply includes_app_r, includes_prefix, prefix_app. Qed.

Lemma lower_char_cases c d :
  lower_char c = d →
  c = d ∨ ((65 <=? code c) && (code c <=? 90) = true ∧ code d = code c + 32)%nat.
Proof.
  unfold lower_char. intros <-.
  destruct ((65 <=? code c) && (code c <=? 90))%nat eqn:E; [right | by left].
  split; [done |].
  apply andb_true_iff in E as [H1 H2].
  apply Nat.leb_le in H1, H2.
  unfold code. rewrite nat_ascii_embedding; [done | unfold code in *; lia].
Qed.

Lemma lower_char_same_letter x y :
  (97 <= code y <= 122)%nat → lower_char x = y ↔ same_letter x y.
Proof.
  intros Hy. split.
  - intros [-> | [_ H]]%lower_char_cases; [by left | right; lia].
  - intros [-> | H]; unfold lower_char.
    + replace ((65 <=? code y) && (code y <=? 90))%nat with false; [done |].
      symmetry. apply andb_false_iff. right. apply Nat.leb_gt. lia.
    + replace ((65 <=? code x) && (code x <=? 90))%nat with true.
      * rewrite H. apply ascii_nat_embedding.
      * symmetry. apply andb_true_iff. split; apply Nat.leb_le; lia.
Qed.

(** Comparing the lower-cased text with a lower-case word is matching it
    without regard to case. *)
Lemma toLowerCase_ci_match s w : lower_word w → toLowerCase s = w ↔ ci_match s w.
Proof.
  revert w. induction s as [|x s IH]; intros [|y w] Hw; simpl; try done.
  destruct Hw as [Hy Hw]. rewrite <- (IH w Hw), <- (lower_char_same_letter x y Hy).
  split; [by intros [= -> ->] | by intros [-> ->]].
Qed.

Lemma append_cons x (a b : string) : String x a +:+ b = String x (a +:+ b).
Proof. reflexivity. Qed.

Lemma append_nil_r (s : string) : s +:+ "" = s.
Proof. induction s as [|a s IH]; [done | by rewrite append_cons, IH]. Qed.

Lemma append_assoc (a b c : string) : (a +:+ b) +:+ c = a +:+ (b +:+ c).
Proof. induction a as [|x a IH]; [done | by rewrite !append_cons, IH]. Qed.

Lemma prefix_app_l n a b : String.prefix n a = true → String.prefix n (a +:+ b) = true.
Proof.
  revert a. induction n as [|x n IH]; intros a H; [by destruct (a +:+ b) |].
  destruct a as [|y a]; simpl in *; [done |].
  destruct (ascii_dec x y); [by apply IH | done].
Qed.

Lemma includes_app_l a b n : includes a n = true → includes (a +:+ b) n = true.
Proof.
  induction a as [|x a IH]; simpl.
  - rewrite orb_false_r. intros H. destruct n; [| done].
    by destruct b.
  - intros [H | H]%orb_true_iff.
    + apply orb_true_iff. left. by apply (prefix_app_l n (String x a) b).
    + apply orb_true_iff. right. by apply IH.
Qed.

Lemma includes_refl s : includes s s = true.
Proof.
  apply includes_prefix. rewrite <- (append_nil_r s) at 2. apply prefix_app.
Qed.

(** Every joined item occurs in the joined text. *)
Lemma includes_join separator l x :
  x ∈ l → includes (join separator l) x = true.
Proof.
  induction l as [|y l IH]; intros H; [by apply elem_of_nil in H |].
  cbn [join]. apply elem_of_cons in H as [-> | H].
  - destruct l; [apply includes_refl |].
    apply includes_app_l, includes_refl.
  - destruct l as [|z l]; [by apply elem_of_nil in H |].
    by apply includes_app_r, includes_app_r, IH.
Qed.

Lemma join_app separator l1 l2 :
  l1 ≠ [] → l2 ≠ [] →
  join separator (l1 ++ l2)
  = join separator l1 +:+ separator +:+ join separator l2.
Proof.
  intros H1 H2. induction l1 as [|x l1 IH]; [done |].
  destruct l1 as [|y l1].
  - cbn [app join]. by destruct l2.
  - change ((x :: y :: l1) ++ l2) with (x :: (y :: l1) ++ l2).
    cbn [join]. cbn [app]. cbn [join] in IH. cbn [app] in IH.
    rewrite IH by done. by rewrite !append_assoc.
Qed.

Lemma endsWith_question typeStr :
  endsWith typeStr "?" = true ↔ ∃ base, typeStr = base +:+ "?".
Proof.
  split.
  - intros H. destruct (snoc_cases typeStr) as [-> | (b & c & ->)]; [done |].
    rewrite (endsWith_snoc b c "?") in H.
    apply Ascii.eqb_eq in H as ->. by exists b.
  - intros [base ->]. by rewrite (endsWith_snoc base "?" "?").
Qed.

End JsStringFacts.

(** ** Numbers *)

Module JsNumberFacts.
Import JsString JsNumber.

Ltac bool_to_prop H :=
  repeat first [ rewrite orb_true_iff in H | rewrite andb_true_iff in H
               | rewrite Nat.eqb_eq in H | rewrite Nat.leb_le in H ].

Lemma ws1_code c : ws1 c = true → (code c <= 32)%nat.
Proof. unfold ws1. intros H. bool_to_prop H. lia. Qed.

Lemma ws2_code c1 c2 : ws2 c1 c2 = true → (code c1 = 194 ∧ code c2 = 160)%nat.
Proof. unfold ws2. intros H. bool_to_prop H. lia. Qed.

Lemma ws3_code c1 c2 c3 :
  ws3 c1 c2 c3 = true →
  (225 <= code c1 ∧ 128 <= code c2 <= 191 ∧ 128 <= code c3 <= 191)%nat.
Proof. unfold ws3. intros H. bool_to_prop H. lia. Qed.

Lemma not_ws1 c : (32 < code c)%nat → ws1 c = false.
Proof.
  intros H. apply not_true_is_false. intros Hw%ws1_code. lia.
Qed.

Lemma not_ws2_l c1 c2 : (code c1 ≠ 194)%nat → ws2 c1 c2 = false.
Proof. intros H. apply not_true_is_false. intros Hw%ws2_code. lia. Qed.

Lemma not_ws2_r c1 c2 : (code c2 ≠ 160)%nat → ws2 c1 c2 = false.
Proof. intros H. apply not_true_is_false. intros Hw%ws2_code. lia. Qed.

Lemma not_ws3_l c1 c2 c3 : (code c1 < 225)%nat → ws3 c1 c2 c3 = false.
Proof. intros H. apply not_true_is_false. intros Hw%ws3_code. lia. Qed.

Lemma not_ws3_r c1 c2 c3 : (code c3 < 128)%nat → ws3 c1 c2 c3 = false.
Proof. intros H. apply not_true_is_false. intros Hw%ws3_code. lia. Qed.

(** Leading white space is skipped. *)
Lemma trimStart_ws pre l : StrWhiteSpace pre → trimStart (pre ++ l) = trimStart l.
Proof.
  induction 1 as [|c pre Hc _ IH|c1 c2 pre Hc _ IH|c1 c2 c3 pre Hc _ IH].
  - done.
  - simpl. by rewrite Hc.
  - cbn [app trimStart]. apply ws2_code in Hc as Hcode.
    rewrite (not_ws1 c1) by lia. by rewrite Hc.
  - cbn [app trimStart]. apply ws3_code in Hc as Hcode.
    rewrite (not_ws1 c1) by lia. rewrite (not_ws2_l c1 c2) by lia. by rewrite Hc.
Qed.

(** Trailing white space is skipped: the scan runs over the reversed text. *)
Lemma trimStart_rev_ws post l :
  StrWhiteSpace post → trimStart_rev (rev post ++ l) = trimStart_rev l.
Proof.
  intros H. revert l.
  induction H as [|c post Hc _ IH|c1 c2 post Hc _ IH|c1 c2 c3 post Hc _ IH];
    intros l.
  - done.
  - cbn [rev]. rewrite <- app_assoc, IH. simpl. by rewrite Hc.
  - cbn [rev]. rewrite <- !app_assoc, IH. cbn [app trimStart_rev].
    apply ws2_code in Hc as Hcode.
    rewrite (not_ws1 c2) by lia. by rewrite Hc.
  - cbn [rev]. rewrite <- !app_assoc, IH. cbn [app trimStart_rev].
    apply ws3_code in Hc as Hcode.
    rewrite (not_ws1 c3) by lia. rewrite (not_ws2_l c2 c3) by lia. by rewrite Hc.
Qed.

Lemma trim_ws l : StrWhiteSpace l → trim l = [].
Proof.
  intros H. unfold trim.
  rewrite <- (app_nil_r l), trimStart_ws by done. done.
Qed.

Lemma trimStart_head c l : (32 < code c < 128)%nat → trimStart (c :: l) = c :: l.
Proof.
  intros H. destruct l as [|c2 [|c3 l]]; cbn [trimStart];
    rewrite (not_ws1 c) by lia; [done | |].
  - by rewrite (not_ws2_l c c2) by lia.
  - rewrite (not_ws2_l c c2) by lia. by rewrite (not_ws3_l c c2 c3) by lia.
Qed.

Lemma trimStart_rev_head c l :
  (32 < code c < 128)%nat → trimStart_rev (c :: l) = c :: l.
Proof.
  intros H. destruct l as [|c2 [|c3 l]]; cbn [trimStart_rev];
    rewrite (not_ws1 c) by lia; [done | |].
  - by rewrite (not_ws2_r c2 c) by lia.
  - rewrite (not_ws2_r c2 c) by lia. by rewrite (not_ws3_r c3 c2 c) by lia.
Qed.

Lemma trim_bare pre l post :
  StrWhiteSpace pre → StrWhiteSpace post → bare l → trim (pre ++ l ++ post) = l.
Proof.
  intros Hpre Hpost [(c & Hhead & Hc) (d & Hlast & Hd)].
  unfold trim, trimEnd. rewrite trimStart_ws by done.
  destruct l as [|c' l]; [done |]. injection Hhead as ->.
  cbn [app]. rewrite trimStart_head by done.
  change (c :: l ++ post) with ((c :: l) ++ post).
  rewrite rev_app_distr, trimStart_rev_ws by done.
  destruct (rev (c :: l)) as [|d' r] eqn:Hrev.
  - apply (f_equal (@rev ascii)) in Hrev. rewrite rev_involutive in Hrev. done.
  - assert (d' = d) as ->.
    { apply (f_equal (@rev ascii)) in Hrev. rewrite rev_involutive in Hrev.
      rewrite Hrev in Hlast. cbn [rev] in Hlast.
      rewrite last_snoc in Hlast. congruence. }
    rewrite trimStart_rev_head by done.
    rewrite <- Hrev. apply rev_involutive.
Qed.

Lemma list_ascii_of_string_app a b :
  list_ascii_of_string (a +:+ b) = list_ascii_of_string a ++ list_ascii_of_string b.
Proof. induction a as [|x a IH]; simpl; [done | by rewrite IH]. Qed.

(** [Number] of white space only is [+0]. *)
Lemma Number_ws str :
  StrWhiteSpace (list_ascii_of_string str) → Number str = S754_zero false.
Proof. intros H. unfold Number, StringToNumber. by rewrite trim_ws. Qed.

(** [Number] ignores white space around a bare text. *)
Lemma Number_trim pre str post :
  StrWhiteSpace (list_ascii_of_string pre) →
  StrWhiteSpace (list_ascii_of_string post) →
  bare (list_ascii_of_string str) →
  Number (pre +:+ str +:+ post) = Number str.
Proof.
  intros Hpre Hpost Hbare. unfold Number, StringToNumber.
  rewrite !list_ascii_of_string_app, trim_bare by done.
  pose proof (trim_bare [] (list_ascii_of_string str) [] sws_nil sws_nil Hbare) as E.
  rewrite app_nil_l, app_nil_r in E. by rewrite E.
Qed.

(** *** Decimal numerals *)

Lemma digit_10 c : is_digit c → digit 10 c = Some (N.of_nat (code c) - 48)%N.
Proof.
  intros [H1 H2]. unfold digit.
  replace (48 <=? N.of_nat (code c))%N with true by (symmetry; apply N.leb_le; lia).
  replace (N.of_nat (code c) <=? 57)%N with true by (symmetry; apply N.leb_le; lia).
  cbn [andb].
  by replace (N.of_nat (code c) - 48 <? 10)%N with true
    by (symmetry; apply N.ltb_lt; lia).
Qed.

Lemma span_digits_all l : Forall is_digit l → span_digits l = (l, []).
Proof.
  induction 1 as [|c l Hc _ IH]; [done |].
  cbn [span_digits]. by rewrite (digit_10 c Hc), IH.
Qed.

Lemma NonDecimalIntegerLiteral_digits l :
  Forall is_digit l → NonDecimalIntegerLiteral l = None.
Proof.
  intros H. destruct l as [|z [|p ds]]; [done | done |].
  apply Forall_cons in H as [_ [[Hp1 Hp2] _]%Forall_cons].
  unfold NonDecimalIntegerLiteral.
  destruct (code z =? 48)%nat; [| done].
  repeat match goal with
         | |- context [(code p =? ?k)%nat] =>
             replace (code p =? k)%nat with false
               by (symmetry; apply Nat.eqb_neq; lia)
         end.
  done.
Qed.

Lemma uint_chars_digits d :
  Forall is_digit (list_ascii_of_string (NilEmpty.string_of_uint d)).
Proof.
  induction d; cbn [NilEmpty.string_of_uint list_ascii_of_string];
    constructor; try done; split; apply Nat.leb_le; reflexivity.
Qed.

Lemma digits_from_uint d acc :
  digits_from 10 acc (list_ascii_of_string (NilEmpty.string_of_uint d))
  = Some (Unsigned.of_lu (Decimal.rev d) + acc * 10 ^ Unsigned.usize d)%N.
Proof.
  revert acc.
  induction d; intros acc;
    cbn [NilEmpty.string_of_uint list_ascii_of_string digits_from].
  1: { simpl. f_equal. lia. }
  all: match goal with
       | |- context [digit 10 ?c] =>
           let v := eval vm_compute in (digit 10 c) in change (digit 10 c) with v
       end.
  all: cbv iota beta; rewrite IHd; f_equal.
  all: match goal with
       | |- context [Decimal.rev (?D ?d')] =>
           change (Decimal.rev (D d')) with (revapp d' (D Nil));
           rewrite (Unsigned.of_lu_revapp d' (D Nil))
       end.
  all: cbn [Unsigned.of_lu Unsigned.usize]; rewrite N.pow_succ_r'; lia.
Qed.

Lemma round_decimal_integer n : round_decimal false n 0 = of_N n.
Proof.
  destruct n as [|p]; [done |].
  unfold round_decimal, of_N. cbn. by rewrite Pos.mul_1_r.
Qed.

(** A non-empty string of decimal digits is read as the natural number it
    writes, rounded to binary64. *)
Lemma Number_uint d :
  d ≠ Nil → Number (NilEmpty.string_of_uint d) = of_N (N.of_uint d).
Proof.
  intros Hd.
  pose proof (uint_chars_digits d) as Hdigits.
  set (l := list_ascii_of_string (NilEmpty.string_of_uint d)) in *.
  assert (l ≠ []) as Hl by (subst l; by destruct d).
  assert (bare l) as Hbare.
  { rewrite Forall_forall in Hdigits. split.
    - destruct l as [|c l']; [done |]. exists c. split; [done |].
      destruct (Hdigits c) as [H1 H2]; [left | lia].
    - destruct (last l) as [c|] eqn:Hlast.
      + exists c. split; [done |].
        destruct (Hdigits c) as [H1 H2]; [by eapply last_Some_elem_of | lia].
      + by apply last_None in Hlast. }
  assert (digits_from 10 0 l = Some (N.of_uint d)) as Hval.
  { subst l. rewrite digits_from_uint. f_equal.
    unfold N.of_uint. rewrite Unsigned.of_uint_alt. lia. }
  unfold Number, StringToNumber. fold l.
  pose proof (trim_bare [] l [] sws_nil sws_nil Hbare) as Htrim.
  rewrite app_nil_l, app_nil_r in Htrim. rewrite Htrim.
  clearbody l. destruct l as [|c l']; [done |].
  rewrite NonDecimalIntegerLiteral_digits by done.
  apply Forall_cons in Hdigits as Hc. destruct Hc as [[Hc1 Hc2] _].
  unfold StrDecimalLiteral.
  replace (code c =? 43)%nat with false by (symmetry; apply Nat.eqb_neq; lia).
  replace (code c =? 45)%nat with false by (symmetry; apply Nat.eqb_neq; lia).
  unfold StrUnsignedDecimalLiteral.
  replace (String.eqb (string_of_list_ascii (c :: l')) "Infinity") with false.
  2: { symmetry. apply String.eqb_neq. cbn [string_of_list_ascii].
       intros [= -> _]. vm_compute in Hc2. lia. }
  rewrite span_digits_all by done. cbv beta iota. rewrite app_nil_r, Hval.
  cbn. f_equal. apply round_decimal_integer.
Qed.

(** Rounding never makes a [NaN]: shifting and rounding keep a mantissa
    non-negative. *)
Lemma iter_pos_shr_1_nonneg p mrs :
  (0 <= shr_m mrs)%Z → (0 <= shr_m (SpecFloat.iter_pos shr_1 p mrs))%Z.
Proof.
  revert mrs. induction p as [p IH|p IH|]; intros mrs H; cbn [SpecFloat.iter_pos].
  - apply IH, IH. destruct mrs as [[|[q|q|]|q] r t]; simpl in *; lia.
  - by apply IH, IH.
  - destruct mrs as [[|[q|q|]|q] r t]; simpl in *; lia.
Qed.

Lemma shr_fexp_nonneg m e l :
  (0 <= m)%Z → (0 <= shr_m (shr_fexp prec emax m e l).1)%Z.
Proof.
  intros H. unfold shr_fexp, shr.
  destruct (fexp prec emax (Zdigits2 m + e) - e)%Z as [|p|p]; cbn [fst].
  2: apply iter_pos_shr_1_nonneg.
  all: by destruct l as [|[]].
Qed.

Lemma binary_round_aux_not_NaN s m e l :
  (0 <= m)%Z → isNaN (binary_round_aux prec emax s m e l) = false.
Proof.
  intros H. unfold binary_round_aux.
  pose proof (shr_fexp_nonneg m e l H) as H1.
  destruct (shr_fexp prec emax m e l) as [mrs1 e1]. cbn [fst] in H1.
  set (m2 := round_nearest_even (shr_m mrs1) (loc_of_shr_record mrs1)).
  assert (0 <= m2)%Z as H2.
  { subst m2. unfold round_nearest_even.
    destruct (loc_of_shr_record mrs1) as [|[]]; try lia.
    destruct (Z.even (shr_m mrs1)); lia. }
  pose proof (shr_fexp_nonneg m2 e1 loc_Exact H2) as H3.
  destruct (shr_fexp prec emax m2 e1 loc_Exact) as [mrs2 e2]. cbn [fst] in H3.
  destruct (shr_m mrs2) as [|q|q]; [done | | lia].
  by destruct (e2 <=? emax - prec)%Z.
Qed.

Lemma of_N_not_NaN n : isNaN (of_N n) = false.
Proof.
  destruct n as [|p]; [done |].
  unfold of_N, binary_normalize, binary_round. cbn [Z.of_N].
  destruct (shl_align p 0 _) as [mz ez].
  by apply binary_round_aux_not_NaN.
Qed.

Lemma decimal_nonempty n : decimal n ≠ "".
Proof.
  unfold decimal.
  assert (N.to_uint n ≠ Nil) as H
    by (destruct n; [done | apply Unsigned.to_uint_nonnil]).
  by destruct (N.to_uint n).
Qed.

Lemma Number_decimal n : Number (decimal n) = of_N n.
Proof.
  unfold decimal. rewrite Number_uint.
  - by rewrite DecimalN.Unsigned.of_to.
  - destruct n; [done | apply Unsigned.to_uint_nonnil].
Qed.

End JsNumberFacts.


(** ** The validator *)

Section ValidatorFacts.

Import JsString JsNumber JsStringFacts.

Variable JSON_parse : string -> Completion JsValue.
Variable process_env : Env.t.

(** *** Reads and writes *)

Lemma Env_get_own env key s :
  Env.own env !! key = Some s → Env.get env key = PString s.
Proof. intros H. unfold Env.get. by rewrite H. Qed.

Lemma Env_get_restrict keys env key :
  key ∈ keys → Env.get (Env.restrict keys env) key = Env.get env key.
Proof.
  intros Hkey. unfold Env.get, Env.restrict.
  cbn [Env.own Env.undefined_keys Env.prototype].
  rewrite map_lookup_filter.
  destruct (Env.own env !! key) as [s|]; simpl.
  - by rewrite option_guard_True.
  - destruct (decide (key ∈ Env.undefined_keys env)) as [Hin | Hnin].
    + rewrite decide_True; [done |]. by apply elem_of_filter.
    + rewrite decide_False; [done |]. by intros [_ ?]%elem_of_filter.
Qed.

Lemma falsy_false value : value ≠ "" → falsy (PString value) = false.
Proof. intros H. by apply String.eqb_neq. Qed.

Lemma falsy_true value :
  falsy value = true ↔ value = PUndefined ∨ value = PString "".
Proof.
  destruct value as [|s|m]; simpl.
  - split; [by left | done].
  - rewrite String.eqb_eq. split; [intros ->; by right | by intros [? | [= ->]]].
  - split; [done | by intros [? | ?]].
Qed.

Lemma bound_set_ne values key k v :
  k ≠ key →
  Values.bound (Values.set values key v) !! k = Values.bound values !! k.
Proof.
  intros Hne. unfold Values.set.
  destruct (String.eqb key "__proto__" && _).
  - by destruct (Values.is_object_or_null v).
  - cbn [Values.bound]. by rewrite lookup_insert_ne.
Qed.

Lemma set_ordinary values key v :
  key ≠ "__proto__" →
  Values.set values key v
  = Values.mk (<[key := v]> (Values.bound values)) (Values.prototype values).
Proof.
  intros Hne%String.eqb_neq. unfold Values.set. by rewrite Hne.
Qed.

Lemma bound_set_eq values key v :
  key ≠ "__proto__" →
  Values.bound (Values.set values key v) !! key = Some v.
Proof.
  intros Hne. rewrite set_ordinary by done. cbn [Values.bound].
  apply lookup_insert_eq.
Qed.

Lemma set_proto values v :
  Values.reaches_setter (Values.prototype values) = true →
  Values.bound (Values.set values "__proto__" v) = Values.bound values.
Proof.
  intros Hr. unfold Values.set. rewrite Hr. cbn [String.eqb Ascii.eqb andb].
  change (String.eqb "__proto__" "__proto__") with true. cbv iota.
  by destruct (Values.is_object_or_null v).
Qed.

(** *** [validateValue] returns, [validateValue] on an object throws *)

Lemma validateValue_total value expectedType :
  ∃ validation, validateValue JSON_parse value expectedType = Normal validation.
Proof.
  unfold validateValue.
  destruct value as [value|]; [| eauto].
  repeat (match goal with |- context [if ?b then _ else _] => destruct b end;
          try (eexists; reflexivity)).
  destruct (JSON_parse value); simpl; eauto.
Qed.

Lemma validateValue_any_inherited m tag :
  (tag = "boolean"
   ∧ validateValue_any JSON_parse (PInherited m) tag = Abrupt no_toLowerCase)
  ∨ (tag ≠ "boolean"
     ∧ ∃ validation,
         validateValue_any JSON_parse (PInherited m) tag = Normal validation).
Proof.
  unfold validateValue_any.
  destruct (String.eqb_spec tag "string") as [-> | N1];
    [right; split; [done | eauto] |].
  destruct (String.eqb_spec tag "number") as [-> | N2].
  { right. split; [done |]. destruct (isNaN _); eauto. }
  destruct (String.eqb_spec tag "boolean") as [-> | N3]; [by left |].
  right. split; [done |].
  destruct (String.eqb_spec tag "json") as [-> | N4]; [| eauto].
  destruct (JSON_parse (Member_text m)); simpl; eauto.
Qed.

Lemma verdict_raised env entry e :
  verdict JSON_parse env entry = Raised e
  ↔ throws_on env entry = true ∧ e = no_toLowerCase.
Proof.
  unfold verdict, throws_on.
  destruct (Env.get env entry.1) as [|s|m] eqn:Hget.
  - cbn [falsy]. destruct (TypeString.optional _); split; try done; by intros [? _].
  - destruct (falsy (PString s));
      [destruct (TypeString.optional _); split; try done; by intros [? _] |].
    cbn [validateValue_any].
    destruct (validateValue_total (Some s)
                (TypeString.type (parseTypeString entry.2))) as [r ->].
    destruct (Validation.valid r); split; try done; by intros [? _].
  - cbn [falsy].
    destruct (validateValue_any_inherited m
                (TypeString.type (parseTypeString entry.2)))
      as [[-> ->] | [Hne [r ->]]].
    + split; [by intros [= <-] | by intros [_ ->]].
    + apply String.eqb_neq in Hne. rewrite Hne.
      destruct (Validation.valid r); split; try done; by intros [? _].
Qed.

Lemma verdict_not_raised env entry :
  throws_on env entry = false → ∀ e, verdict JSON_parse env entry ≠ Raised e.
Proof. intros Hf e [Ht _]%verdict_raised. congruence. Qed.

Lemma first_raised_None env (schema : EnvSchema) :
  first_raised JSON_parse env schema = None ↔ no_throw env schema.
Proof.
  unfold no_throw. induction schema as [|entry schema IH]; cbn [first_raised].
  - split; [constructor | done].
  - rewrite Forall_cons, <- IH.
    destruct (throws_on env entry) eqn:Ht.
    + assert (verdict JSON_parse env entry = Raised no_toLowerCase) as ->
        by (by apply verdict_raised).
      split; [done | by intros [? _]].
    + pose proof (verdict_not_raised env entry Ht) as Hr.
      destruct (verdict JSON_parse env entry); try (split; [by split | by intros [_ ?]]).
      by destruct (Hr e).
Qed.

Lemma first_raised_Some env (schema : EnvSchema) e :
  first_raised JSON_parse env schema = Some e
  ↔ e = no_toLowerCase ∧ ∃ entry, entry ∈ schema ∧ throws_on env entry = true.
Proof.
  induction schema as [|entry schema IH]; cbn [first_raised].
  - split; [done |]. intros [_ (entry & Hin & _)]. by apply elem_of_nil in Hin.
  - destruct (throws_on env entry) eqn:Ht.
    + assert (verdict JSON_parse env entry = Raised no_toLowerCase) as ->
        by (by apply verdict_raised).
      split.
      * intros [= <-]. split; [done |]. exists entry. split; [left | done].
      * by intros [-> _].
    + pose proof (verdict_not_raised env entry Ht) as Hr.
      assert (first_raised JSON_parse env schema = Some e
              ↔ e = no_toLowerCase
                ∧ ∃ entry0, entry0 ∈ entry :: schema ∧ throws_on env entry0 = true)
        as Hrest.
      { rewrite IH. split; intros [-> (entry0 & Hin & H0)]; (split; [done |]).
        - exists entry0. split; [by right | done].
        - apply elem_of_cons in Hin as [-> | Hin]; [congruence | eauto]. }
      destruct (verdict JSON_parse env entry); try exact Hrest.
      by destruct (Hr e0).
Qed.

(** *** Both loops are [per_key_body] *)

Lemma createEnvValidator_body_per_key env :
  createEnvValidator_body JSON_parse env
  = per_key_body JSON_parse missing_createEnvValidator env.
Proof. reflexivity. Qed.

Lemma validateEnv_body_per_key env :
  validateEnv_body JSON_parse env
  = per_key_body JSON_parse missing_validateEnv env.
Proof. reflexivity. Qed.

(** *** One iteration, by verdict *)

Lemma per_key_body_verdict missing env errors values entry :
  per_key_body JSON_parse missing env (errors, values) entry
  = match verdict JSON_parse env entry with
    | Raised e => Abrupt e
    | _ => Normal (errors ++ option_list (entry_error JSON_parse missing env entry),
                   store_value JSON_parse env values entry)
    end.
Proof.
  destruct entry as [key typeStr].
  unfold per_key_body, store_value, entry_error, entry_value, verdict.
  cbn [fst snd].
  destruct (parseTypeString typeStr) as [type optional].
  cbn [TypeString.type TypeString.optional].
  destruct (falsy (Env.get env key)) eqn:Hf; simpl.
  - destruct optional; simpl; [by rewrite app_nil_r | done].
  - destruct (validateValue_any JSON_parse (Env.get env key) type) as [r|e];
      [| done].
    simpl. destruct (Validation.valid r); simpl; [by rewrite app_nil_r | done].
Qed.

(** *** The whole loop in closed form *)

Lemma per_key_loop missing env schema errors values :
  for_of (per_key_body JSON_parse missing env) schema (errors, values)
  = match first_raised JSON_parse env schema with
    | Some e => Abrupt e
    | None =>
        Normal (errors ++ omap (entry_error JSON_parse missing env) schema,
                fold_left (store_value JSON_parse env) schema values)
    end.
Proof.
  revert errors values.
  induction schema as [|entry schema IH]; intros errors values;
    cbn [for_of first_raised].
  - simpl. by rewrite app_nil_r.
  - rewrite per_key_body_verdict.
    assert (∀ errors' : list ValidationError.t,
              errors' = errors ++ option_list (entry_error JSON_parse missing env entry) →
              (st <- Normal (errors', store_value JSON_parse env values entry) ;;
               for_of (per_key_body JSON_parse missing env) schema st)%completion
              = match first_raised JSON_parse env schema with
                | Some e => Abrupt e
                | None =>
                    Normal (errors
                            ++ omap (entry_error JSON_parse missing env) (entry :: schema),
                            fold_left (store_value JSON_parse env) (entry :: schema) values)
                end) as Hstep.
    { intros errors' ->. cbn [bind]. rewrite IH.
      destruct (first_raised JSON_parse env schema); [done |].
      cbn [omap list_omap fold_left]. rewrite <- app_assoc.
      by destruct (entry_error JSON_parse missing env entry). }
    destruct (verdict JSON_parse env entry); try (by apply Hstep); done.
Qed.

Lemma createEnvValidator_loop_closed schema env :
  createEnvValidator_loop JSON_parse schema env
  = match first_raised JSON_parse env schema with
    | Some e => Abrupt e
    | None =>
        Normal (omap (entry_error JSON_parse missing_createEnvValidator env) schema,
                fold_left (store_value JSON_parse env) schema Values.empty)
    end.
Proof.
  unfold createEnvValidator_loop.
  by rewrite createEnvValidator_body_per_key, per_key_loop.
Qed.

Lemma validateEnv_loop_closed schema env :
  for_of (validateEnv_body JSON_parse env) schema ([], Values.empty)
  = match first_raised JSON_parse env schema with
    | Some e => Abrupt e
    | None =>
        Normal (omap (entry_error JSON_parse missing_validateEnv env) schema,
                fold_left (store_value JSON_parse env) schema Values.empty)
    end.
Proof. by rewrite validateEnv_body_per_key, per_key_loop. Qed.

Lemma validateEnv_closed schema env :
  validateEnv JSON_parse process_env schema env
  = match first_raised JSON_parse (default process_env env) schema with
    | Some e => Abrupt e
    | None =>
        Normal {| ValidationResult.valid :=
                    (length (omap (entry_error JSON_parse missing_validateEnv
                                     (default process_env env)) schema) =? 0)%nat;
                  ValidationResult.errors :=
                    omap (entry_error JSON_parse missing_validateEnv
                            (default process_env env)) schema;
                  ValidationResult.values :=
                    fold_left (store_value JSON_parse (default process_env env))
                      schema Values.empty |}
    end.
Proof.
  unfold validateEnv. rewrite validateEnv_loop_closed.
  by destruct (first_raised JSON_parse _ schema).
Qed.

Lemma validateEnv_closed_env schema env :
  validateEnv JSON_parse process_env schema (Some env)
  = match first_raised JSON_parse env schema with
    | Some e => Abrupt e
    | None =>
        Normal {| ValidationResult.valid :=
                    (length (omap (entry_error JSON_parse missing_validateEnv env) schema)
                     =? 0)%nat;
                  ValidationResult.errors :=
                    omap (entry_error JSON_parse missing_validateEnv env) schema;
                  ValidationResult.values :=
                    fold_left (store_value JSON_parse env) schema Values.empty |}
    end.
Proof. apply validateEnv_closed. Qed.

(** When no entry throws, both loops return. *)
Lemma loops_return env (schema : EnvSchema) :
  no_throw env schema →
  createEnvValidator_loop JSON_parse schema env
  = Normal (omap (entry_error JSON_parse missing_createEnvValidator env) schema,
            fold_left (store_value JSON_parse env) schema Values.empty)
  ∧ validateEnv JSON_parse process_env schema (Some env)
    = Normal {| ValidationResult.valid :=
                  (length (omap (entry_error JSON_parse missing_validateEnv env) schema)
                   =? 0)%nat;
                ValidationResult.errors :=
                  omap (entry_error JSON_parse missing_validateEnv env) schema;
                ValidationResult.values :=
                  fold_left (store_value JSON_parse env) schema Values.empty |}.
Proof.
  intros Hn%first_raised_None.
  by rewrite createEnvValidator_loop_closed, validateEnv_closed_env, Hn.
Qed.

(** *** What one entry contributes *)

Lemma entry_error_fields missing env entry e :
  entry_error JSON_parse missing env entry = Some e →
  ValidationError.key e = entry.1
  ∧ ValidationError.expected e = entry.2
  ∧ ValidationError.received e = Env.get env entry.1.
Proof.
  unfold entry_error.
  destruct (verdict JSON_parse env entry); intros [= <-]; done.
Qed.

Lemma entry_error_or_value missing env entry :
  throws_on env entry = false →
  entry_error JSON_parse missing env entry = None
  ↔ is_Some (entry_value JSON_parse env entry).
Proof.
  intros Hr. pose proof (verdict_not_raised env entry Hr) as Hn. clear Hr.
  unfold entry_error, entry_value.
  destruct (verdict JSON_parse env entry) eqn:E; split;
    try done; try (by eauto); try (by intros [? [=]]).
  by destruct (Hn e).
Qed.

Lemma entry_error_and_value missing env entry e v :
  entry_error JSON_parse missing env entry = Some e →
  entry_value JSON_parse env entry = Some v → False.
Proof.
  unfold entry_error, entry_value.
  by destruct (verdict JSON_parse env entry).
Qed.

(** A key of an object names one entry. *)
Lemma schema_key_unique (schema : EnvSchema) k t1 t2 :
  NoDup schema.*1 → (k, t1) ∈ schema → (k, t2) ∈ schema → t1 = t2.
Proof.
  induction schema as [|[k' t'] schema IH]; intros Hnd H1 H2.
  - by apply elem_of_nil in H1.
  - rewrite fmap_cons in Hnd. apply NoDup_cons in Hnd as [Hk' Hnd]. simpl in Hk'.
    apply elem_of_cons in H1 as [E1 | H1];
      apply elem_of_cons in H2 as [E2 | H2].
    + congruence.
    + injection E1 as -> ->. destruct Hk'.
      apply list_elem_of_fmap. by exists (k', t2).
    + injection E2 as -> ->. destruct Hk'.
      apply list_elem_of_fmap. by exists (k', t1).
    + by apply IH.
Qed.

(** *** The error list *)

Lemma errors_elem_of missing env (schema : EnvSchema) e :
  e ∈ omap (entry_error JSON_parse missing env) schema
  ↔ ∃ entry, entry ∈ schema ∧ entry_error JSON_parse missing env entry = Some e.
Proof. apply list_elem_of_omap. Qed.

Lemma errors_key_elem_of missing env (schema : EnvSchema) k :
  k ∈ ValidationError.key <$> omap (entry_error JSON_parse missing env) schema
  ↔ ∃ t, (k, t) ∈ schema ∧ is_Some (entry_error JSON_parse missing env (k, t)).
Proof.
  rewrite list_elem_of_fmap. split.
  - intros (e & -> & He). apply errors_elem_of in He as ([k t] & Hin & He).
    apply entry_error_fields in He as Hf. destruct Hf as (Hk & _ & _).
    simpl in Hk. rewrite Hk. eauto.
  - intros (t & Hin & [e He]). exists e. split.
    + apply entry_error_fields in He as (Hk & _ & _). done.
    + apply errors_elem_of. eauto.
Qed.

Lemma errors_filter_key missing env (schema : EnvSchema) k t :
  NoDup schema.*1 → (k, t) ∈ schema →
  filter (λ e, ValidationError.key e = k)
    (omap (entry_error JSON_parse missing env) schema)
  = option_list (entry_error JSON_parse missing env (k, t)).
Proof.
  induction schema as [|[k' t'] schema IH]; intros Hnd Hin.
  - by apply elem_of_nil in Hin.
  - rewrite fmap_cons in Hnd. apply NoDup_cons in Hnd as [Hk' Hnd]. simpl in Hk'.
    cbn [omap list_omap].
    apply elem_of_cons in Hin as [[= <- <-] | Hin].
    + assert (filter (λ e, ValidationError.key e = k)
                (omap (entry_error JSON_parse missing env) schema) = []) as Hnone.
      { apply elem_of_nil_inv. intros e [Hk He]%list_elem_of_filter.
        apply Hk'. apply errors_elem_of in He as ([k2 t2] & Hin2 & He).
        apply entry_error_fields in He as (Hk2 & _ & _). simpl in Hk2.
        apply list_elem_of_fmap. exists (k2, t2). split; [simpl; congruence | done]. }
      destruct (entry_error JSON_parse missing env (k, t)) as [e|] eqn:He; simpl.
      * apply entry_error_fields in He as (Hk & _ & _). simpl in Hk.
        rewrite filter_cons_True by done. by rewrite Hnone.
      * done.
    + assert (k' ≠ k) as Hne.
      { intros ->. apply Hk'. apply list_elem_of_fmap. by exists (k, t). }
      destruct (entry_error JSON_parse missing env (k', t')) as [e|] eqn:He.
      * apply entry_error_fields in He as (Hk & _ & _). simpl in Hk.
        rewrite filter_cons_False by congruence. by apply IH.
      * by apply IH.
Qed.

(** *** The value mapping *)

Lemma store_value_other env values entry k :
  k ≠ entry.1 →
  Values.bound (store_value JSON_parse env values entry) !! k
  = Values.bound values !! k.
Proof.
  intros Hne. unfold store_value.
  destruct (entry_value JSON_parse env entry); [| done].
  by apply bound_set_ne.
Qed.

Lemma store_value_prototype env values entry :
  entry.1 ≠ "__proto__" →
  Values.prototype (store_value JSON_parse env values entry)
  = Values.prototype values.
Proof.
  intros Hne. unfold store_value.
  destruct (entry_value JSON_parse env entry); [| done].
  by rewrite set_ordinary.
Qed.

Lemma values_lookup_other env (schema : EnvSchema) values k :
  k ∉ schema.*1 →
  Values.bound (fold_left (store_value JSON_parse env) schema values) !! k
  = Values.bound values !! k.
Proof.
  revert values. induction schema as [|[k' t'] schema IH]; intros values Hk; [done |].
  rewrite fmap_cons in Hk. apply not_elem_of_cons in Hk as [Hne Hk]. simpl in Hne.
  cbn [fold_left]. rewrite IH by done.
  by apply store_value_other.
Qed.

Lemma values_prototype_other env (schema : EnvSchema) values :
  "__proto__" ∉ schema.*1 →
  Values.prototype (fold_left (store_value JSON_parse env) schema values)
  = Values.prototype values.
Proof.
  revert values. induction schema as [|[k' t'] schema IH]; intros values Hk; [done |].
  rewrite fmap_cons in Hk. apply not_elem_of_cons in Hk as [Hne Hk]. simpl in Hne.
  cbn [fold_left]. rewrite IH by done.
  by apply store_value_prototype.
Qed.

Lemma values_lookup_entry env (schema : EnvSchema) values k t :
  NoDup schema.*1 → (k, t) ∈ schema → k ≠ "__proto__" →
  Values.bound (fold_left (store_value JSON_parse env) schema values) !! k
  = match entry_value JSON_parse env (k, t) with
    | Some v => Some v
    | None => Values.bound values !! k
    end.
Proof.
  intros Hnd Hin Hk. revert values Hnd Hin.
  induction schema as [|[k' t'] schema IH]; intros values Hnd Hin.
  - by apply elem_of_nil in Hin.
  - rewrite fmap_cons in Hnd. apply NoDup_cons in Hnd as [Hk' Hnd]. simpl in Hk'.
    cbn [fold_left].
    apply elem_of_cons in Hin as [[= <- <-] | Hin].
    + rewrite values_lookup_other by done.
      unfold store_value. destruct (entry_value JSON_parse env (k, t)); [| done].
      by apply bound_set_eq.
    + assert (k' ≠ k) as Hne.
      { intros ->. apply Hk'. apply list_elem_of_fmap. by exists (k, t). }
      rewrite IH by done.
      destruct (entry_value JSON_parse env (k, t)); [done |].
      by apply store_value_other.
Qed.

(** Over distinct keys the write at [__proto__] finds the setter, and the
    key is never bound. *)
Lemma values_proto_unbound env (schema : EnvSchema) values :
  NoDup schema.*1 →
  Values.reaches_setter (Values.prototype values) = true →
  Values.bound (fold_left (store_value JSON_parse env) schema values) !! "__proto__"
  = Values.bound values !! "__proto__".
Proof.
  revert values. induction schema as [|[k' t'] schema IH]; intros values Hnd Hr;
    [done |].
  rewrite fmap_cons in Hnd. apply NoDup_cons in Hnd as [Hk' Hnd]. simpl in Hk'.
  cbn [fold_left].
  destruct (decide (k' = "__proto__")) as [-> | Hne].
  - rewrite values_lookup_other by done.
    unfold store_value. destruct (entry_value JSON_parse env _); [| done].
    cbn [fst]. by rewrite set_proto.
  - rewrite IH; [| done |].
    + by apply store_value_other.
    + by rewrite store_value_prototype.
Qed.

Lemma values_is_Some env (schema : EnvSchema) values k :
  k ≠ "__proto__" →
  is_Some (Values.bound (fold_left (store_value JSON_parse env) schema values) !! k)
  ↔ is_Some (Values.bound values !! k)
    ∨ ∃ t, (k, t) ∈ schema ∧ is_Some (entry_value JSON_parse env (k, t)).
Proof.
  intros Hk.
  revert values. induction schema as [|[k' t'] schema IH]; intros values.
  - simpl. split; [by left |]. intros [H | (t & Hin & _)]; [done |].
    by apply elem_of_nil in Hin.
  - cbn [fold_left]. rewrite IH. split.
    + intros [H | (t & Hin & Hv)].
      * destruct (decide (k' = k)) as [-> | Hne].
        -- unfold store_value in H.
           destruct (entry_value JSON_parse env (k, t')) eqn:Ev; [| by left].
           right. exists t'. split; [left | by rewrite Ev].
        -- rewrite store_value_other in H by done. by left.
      * right. exists t. split; [by right | done].
    + intros [H | (t & Hin & Hv)].
      * left. destruct (decide (k' = k)) as [-> | Hne].
        -- unfold store_value.
           destruct (entry_value JSON_parse env (k, t')); [| done].
           cbn [fst]. rewrite bound_set_eq by done. eauto.
        -- by rewrite store_value_other.
      * apply elem_of_cons in Hin as [[= <- <-] | Hin].
        -- left. unfold store_value. destruct Hv as [v ->]. cbn [fst].
           rewrite bound_set_eq by done. eauto.
        -- right. eauto.
Qed.

(** Only keys of the schema are bound. *)
Lemma values_bound_schema env (schema : EnvSchema) values k :
  is_Some (Values.bound (fold_left (store_value JSON_parse env) schema values) !! k) →
  is_Some (Values.bound values !! k) ∨ k ∈ schema.*1.
Proof.
  intros H. destruct (decide (k ∈ schema.*1)) as [Hin | Hnin]; [by right |].
  left. by rewrite values_lookup_other in H.
Qed.

(** *** The type-string parser *)

Lemma parseTypeString_optional base :
  parseTypeString (base +:+ "?") = TypeString.mk base true.
Proof.
  unfold parseTypeString.
  rewrite (endsWith_snoc base "?" "?"). simpl Ascii.eqb. cbv iota.
  by rewrite slice_drop_last.
Qed.

Lemma parseTypeString_required typeStr :
  (∀ base, typeStr ≠ base +:+ "?") →
  parseTypeString typeStr = TypeString.mk typeStr false.
Proof.
  intros Hno. unfold parseTypeString.
  destruct (snoc_cases typeStr) as [-> | (b & c & ->)]; [done |].
  rewrite (endsWith_snoc b c "?").
  destruct (Ascii.eqb_spec c "?") as [-> | Hne]; [| done].
  by destruct (Hno b).
Qed.

Lemma validateValue_unknown value expectedType :
  value ≠ "" →
  expectedType ≠ "string" → expectedType ≠ "number" →
  expectedType ≠ "boolean" → expectedType ≠ "json" →
  validateValue JSON_parse (Some value) expectedType
  = Normal (Validation.mk false VUndefined (Some ("Unknown type: " +:+ expectedType))).
Proof.
  intros Hv H1 H2 H3 H4. unfold validateValue.
  apply String.eqb_neq in Hv, H1, H2, H3, H4.
  by rewrite Hv, H1, H2, H3, H4.
Qed.

Lemma validateValue_any_unknown value expectedType :
  falsy value = false →
  expectedType ≠ "string" → expectedType ≠ "number" →
  expectedType ≠ "boolean" → expectedType ≠ "json" →
  validateValue_any JSON_parse value expectedType
  = Normal (Validation.mk false VUndefined (Some ("Unknown type: " +:+ expectedType))).
Proof.
  intros Hf H1 H2 H3 H4. destruct value as [|s|m]; [done | |].
  - cbn [validateValue_any]. apply validateValue_unknown; try done.
    intros ->. done.
  - unfold validateValue_any.
    apply String.eqb_neq in H1, H2, H3, H4.
    by rewrite H1, H2, H3, H4.
Qed.

Lemma verdict_unknown env key :
  falsy (Env.get env key) = false →
  verdict JSON_parse env (key, "?") = Rejected "Unknown type: ".
Proof.
  intros Hf. unfold verdict. cbn [fst snd].
  change (parseTypeString "?") with (TypeString.mk "" true).
  cbn [TypeString.type TypeString.optional].
  by rewrite Hf, validateValue_any_unknown.
Qed.

(** C9: a descriptor that ends in [?] parses to the text before it, marked
    optional; any other descriptor parses to itself, marked required; the
    descriptor [?] alone has the empty base tag, under which every
    non-empty raw value fails coercion with the reason [Unknown type: ]:
    the iteration of either loop on such an entry records that error and
    binds nothing, and so does every run of the loops that no other entry
    interrupts. *)
Theorem parseTypeString_spec :
  (∀ base, parseTypeString (base +:+ "?") = TypeString.mk base true)
  ∧ (∀ typeStr, (∀ base, typeStr ≠ base +:+ "?") →
       parseTypeString typeStr = TypeString.mk typeStr false)
  ∧ parseTypeString "?" = TypeString.mk "" true
  ∧ (∀ value, value ≠ "" →
       validateValue JSON_parse (Some value) ""
       = Normal (Validation.mk false VUndefined (Some "Unknown type: ")))
  ∧ (∀ env key errors values,
       falsy (Env.get env key) = false →
       createEnvValidator_body JSON_parse env (errors, values) (key, "?")
       = Normal (errors ++ [ValidationError.mk key "?" (Env.get env key)
                              "Unknown type: "],
                 values)
       ∧ validateEnv_body JSON_parse env (errors, values) (key, "?")
         = Normal (errors ++ [ValidationError.mk key "?" (Env.get env key)
                                "Unknown type: "],
                   values))
  ∧ (∀ (schema : EnvSchema) env key,
       (key, "?") ∈ schema →
       falsy (Env.get env key) = false →
       no_throw env schema →
       ∃ errors1 values1 result,
         createEnvValidator_loop JSON_parse schema env = Normal (errors1, values1)
         ∧ validateEnv JSON_parse process_env schema (Some env) = Normal result
         ∧ ValidationError.mk key "?" (Env.get env key) "Unknown type: " ∈ errors1
         ∧ ValidationError.mk key "?" (Env.get env key) "Unknown type: "
           ∈ ValidationResult.errors result).
Proof.
  split; [exact parseTypeString_optional |].
  split; [exact parseTypeString_required |].
  split; [exact (parseTypeString_optional "") |].
  split; [intros value Hv; by apply validateValue_unknown |].
  assert (∀ missing env key,
            falsy (Env.get env key) = false →
            entry_error JSON_parse missing env (key, "?")
            = Some (ValidationError.mk key "?" (Env.get env key) "Unknown type: "))
    as He.
  { intros missing env key Hf. unfold entry_error. by rewrite verdict_unknown. }
  split.
  - intros env key errors values Hf.
    rewrite createEnvValidator_body_per_key, validateEnv_body_per_key.
    rewrite !per_key_body_verdict, !He by done.
    unfold store_value, entry_value. by rewrite verdict_unknown.
  - intros schema env key Hin Hf Hn.
    destruct (loops_return env schema Hn) as [-> ->].
    do 3 eexists. split; [reflexivity |]. split; [reflexivity |].
    split; apply errors_elem_of; exists (key, "?"); by rewrite He.
Qed.

(** *** Coercion to [boolean] *)

(** C2: for a non-empty raw value and base tag [boolean], a
    case-insensitive match of [true], or [1], gives success with [true]; a
    case-insensitive match of [false], or [0], gives success with [false];
    every other text fails with a reason that names the four accepted
    forms.  [TRUE] gives [true], [maybe] fails. *)
Theorem validateValue_boolean :
  (∀ value, value ≠ "" →
     (ci_match value "true" ∨ value = "1" →
        validateValue JSON_parse (Some value) "boolean"
        = Normal (Validation.mk true (VBool true) None))
     ∧ (ci_match value "false" ∨ value = "0" →
          validateValue JSON_parse (Some value) "boolean"
          = Normal (Validation.mk true (VBool false) None))
     ∧ (¬ ci_match value "true" → value ≠ "1" →
        ¬ ci_match value "false" → value ≠ "0" →
          validateValue JSON_parse (Some value) "boolean"
          = Normal (Validation.mk false VUndefined (Some (boolean_reason value)))
          ∧ includes (boolean_reason value) "'true'" = true
          ∧ includes (boolean_reason value) "'false'" = true
          ∧ includes (boolean_reason value) "'1'" = true
          ∧ includes (boolean_reason value) "'0'" = true))
  ∧ validateValue JSON_parse (Some "TRUE") "boolean"
    = Normal (Validation.mk true (VBool true) None)
  ∧ validateValue JSON_parse (Some "maybe") "boolean"
    = Normal (Validation.mk false VUndefined (Some (boolean_reason "maybe"))).
Proof.
  split; [| split; reflexivity].
  intros value Hv.
  assert (lower_word "true") as Lt
    by (repeat split; apply Nat.leb_le; reflexivity).
  assert (lower_word "false") as Lf
    by (repeat split; apply Nat.leb_le; reflexivity).
  pose proof (toLowerCase_ci_match value "true" Lt) as Ht.
  pose proof (toLowerCase_ci_match value "false" Lf) as Hf.
  unfold validateValue. apply String.eqb_neq in Hv. rewrite Hv.
  change (String.eqb "boolean" "string") with false.
  change (String.eqb "boolean" "number") with false.
  change (String.eqb "boolean" "boolean") with true. cbv iota.
  destruct (String.eqb_spec (toLowerCase value) "true") as [Et | Et];
    destruct (String.eqb_spec value "1") as [E1 | E1];
    destruct (String.eqb_spec (toLowerCase value) "false") as [Ef | Ef];
    destruct (String.eqb_spec value "0") as [E0 | E0];
    subst; simpl; try discriminate;
    (split; [| split]); try done;
    try (intros [H | H]; try discriminate; try (apply Ht in H); try (apply Hf in H);
         try congruence; done);
    try (intros H1 H2 H3 H4; try (by destruct H1; apply Ht);
         try (by destruct H3; apply Hf); try done).
  split; [done |].
  unfold boolean_reason.
  repeat split; apply includes_app_r, includes_app_r, includes_app_r; reflexivity.
Qed.

(** *** Coercion to [number] *)

Lemma validateValue_number_eq value :
  value ≠ "" →
  validateValue JSON_parse (Some value) "number"
  = Normal (if isNaN (Number value)
            then Validation.mk false VUndefined (Some (number_reason value))
            else Validation.mk true (VNum (Number value)) None).
Proof.
  intros Hv. unfold validateValue. apply String.eqb_neq in Hv. rewrite Hv.
  change (String.eqb "number" "string") with false.
  change (String.eqb "number" "number") with true. cbv iota.
  by destruct (isNaN (Number value)).
Qed.

(** C3: for base tag [number] a non-empty raw value goes through
    [Number]: the result is the parsed number, or a failure whose reason
    quotes the raw value when the parse is [NaN].  White space around the
    text is ignored, the decimal numeral of every natural number gives that
    number, fractions and exponents are read.  [3000] gives the number
    3000; [abc] fails with a reason that contains [abc] and
    [not a valid number]. *)
Theorem validateValue_number :
  (∀ value, value ≠ "" →
     validateValue JSON_parse (Some value) "number"
     = Normal (if isNaN (Number value)
               then Validation.mk false VUndefined (Some (number_reason value))
               else Validation.mk true (VNum (Number value)) None)
     ∧ includes (number_reason value) value = true
     ∧ includes (number_reason value) "not a valid number" = true)
  ∧ (∀ pre str post,
       StrWhiteSpace (list_ascii_of_string pre) →
       StrWhiteSpace (list_ascii_of_string post) →
       bare (list_ascii_of_string str) →
       Number (pre +:+ str +:+ post) = Number str)
  ∧ (∀ n : N,
       validateValue JSON_parse (Some (decimal n)) "number"
       = Normal (Validation.mk true (VNum (of_N n)) None))
  ∧ Number "1.5" = SFdiv prec emax (of_N 3) (of_N 2)
  ∧ Number "25e-1" = SFdiv prec emax (of_N 5) (of_N 2)
  ∧ Number "1e3" = of_N 1000
  ∧ validateValue JSON_parse (Some "3000") "number"
    = Normal (Validation.mk true (VNum (of_N 3000)) None)
  ∧ integer_value (of_N 3000) = Some 3000%Z
  ∧ validateValue JSON_parse (Some "abc") "number"
    = Normal (Validation.mk false VUndefined (Some (number_reason "abc")))
  ∧ includes (number_reason "abc") "abc" = true
  ∧ includes (number_reason "abc") "not a valid number" = true.
Proof.
  split.
  { intros value Hv. split; [by apply validateValue_number_eq |].
    unfold number_reason. split.
    - apply (includes_middle dquote value).
    - apply includes_app_r, includes_app_r, includes_app_r. reflexivity. }
  split; [exact JsNumberFacts.Number_trim |].
  split.
  { intros n.
    rewrite validateValue_number_eq by apply JsNumberFacts.decimal_nonempty.
    by rewrite JsNumberFacts.Number_decimal, JsNumberFacts.of_N_not_NaN. }
  repeat split; vm_compute; reflexivity.
Qed.

(** *** Keys that [Object.prototype] answers *)

(** C1: at the schema [{ toString: 'string' }] and the environment [{}]
    the raw value of the required key is absent, yet neither loop records
    an error for it: the read [env['toString']] gives the function that
    [Object.prototype] holds under that name, which is neither
    [undefined] nor empty, and both loops bind the key to this function. *)
Theorem inherited_member_not_missing :
  Env.own empty_env !! "toString" = None
  ∧ Env.get empty_env "toString" = PInherited (Builtin "toString")
  ∧ createEnvValidator_loop JSON_parse [("toString", "string")] empty_env
    = Normal ([], Values.mk {[ "toString" := VBuiltin "toString" ]} VObjectPrototype)
  ∧ validateEnv JSON_parse process_env [("toString", "string")] (Some empty_env)
    = Normal {| ValidationResult.valid := true;
                ValidationResult.errors := [];
                ValidationResult.values :=
                  Values.mk {[ "toString" := VBuiltin "toString" ]}
                    VObjectPrototype |}.
Proof. repeat split. Qed.

(** C4: [validateEnv] throws at the schema [{ constructor: 'boolean' }]
    and the environment [{}]: the read [env['constructor']] gives the
    function [Object], and [validateValue] calls [toLowerCase] on it, a
    [TypeError] that nothing catches. *)
Theorem validateEnv_throws_TypeError :
  Env.get empty_env "constructor" = PInherited (Builtin "Object")
  ∧ validateValue_any JSON_parse (PInherited (Builtin "Object")) "boolean"
    = Abrupt no_toLowerCase
  ∧ validateEnv JSON_parse process_env [("constructor", "boolean")] (Some empty_env)
    = Abrupt no_toLowerCase.
Proof. repeat split. Qed.

(** C6: at the schema [{ A: 'string', constructor: 'boolean' }] and the
    environment [{}], with a callback supplied, the loop of
    [createEnvValidator] records the missing-value error of [A] and then
    throws the [TypeError] of [validateValue] at [constructor]: the
    callback is never called, whatever [throwOnError] is. *)
Theorem onError_not_called_when_loop_throws (throwOnError : option bool)
  (log : list (list ValidationError.t)) :
  createEnvValidator_body JSON_parse empty_env ([], Values.empty) ("A", "string")
  = Normal ([ValidationError.mk "A" "string" PUndefined
               (missing_createEnvValidator "A")],
            Values.empty)
  ∧ createEnvValidator_loop JSON_parse
      [("A", "string"); ("constructor", "boolean")] empty_env
    = Abrupt no_toLowerCase
  ∧ createEnvValidator JSON_parse process_env
      [("A", "string"); ("constructor", "boolean")]
      (Some (ValidatorOptions.mk throwOnError (Some empty_env) (Some record_call)))
      log
    = (log, Abrupt no_toLowerCase).
Proof. repeat split. Qed.

(** C7: at a schema whose one entry is the own key [__proto__] with
    descriptor [string], and an environment with the own property
    [__proto__] set to [x], [validateEnv] reports success and returns an
    object without that key: the write [values['__proto__'] = 'x'] runs the
    setter of [Object.prototype], which ignores a string. *)
Theorem round_trip_drops_proto_key :
  Env.own proto_env !! "__proto__" = Some "x"
  ∧ validateEnv JSON_parse process_env [("__proto__", "string")] (Some proto_env)
    = Normal {| ValidationResult.valid := true;
                ValidationResult.errors := [];
                ValidationResult.values := Values.empty |}
  ∧ Values.bound Values.empty !! "__proto__" = None.
Proof. repeat split. Qed.

(** C8: an optional key whose raw value is absent or empty need not end
    up bound to [undefined].  At the schema [{ toString: 'string?' }] and
    the environment [{}] both loops bind the key to the function inherited
    from [Object.prototype]; at the own key [__proto__] with descriptor
    [string?] and the empty string for a raw value, both loops bind
    nothing. *)
Theorem absent_optional_not_undefined :
  Env.own empty_env !! "toString" = None
  ∧ createEnvValidator_loop JSON_parse [("toString", "string?")] empty_env
    = Normal ([], Values.mk {[ "toString" := VBuiltin "toString" ]} VObjectPrototype)
  ∧ validateEnv JSON_parse process_env [("toString", "string?")] (Some empty_env)
    = Normal {| ValidationResult.valid := true;
                ValidationResult.errors := [];
                ValidationResult.values :=
                  Values.mk {[ "toString" := VBuiltin "toString" ]}
                    VObjectPrototype |}
  ∧ Env.own proto_empty_env !! "__proto__" = Some ""
  ∧ createEnvValidator_loop JSON_parse [("__proto__", "string?")] proto_empty_env
    = Normal ([], Values.empty)
  ∧ validateEnv JSON_parse process_env [("__proto__", "string?")]
      (Some proto_empty_env)
    = Normal {| ValidationResult.valid := true;
                ValidationResult.errors := [];
                ValidationResult.values := Values.empty |}.
Proof. repeat split. Qed.

(** C10: a raw value of a single space under base tag [number] is
    coerced to the number [+0], yet the key need not end up bound to it.
    At the own key [__proto__] validation succeeds and the key is not
    bound: the write [values['__proto__'] = 0] runs the setter of
    [Object.prototype], which ignores a number.  At the schema
    [{ PORT: 'number', constructor: 'boolean' }] and the environment
    [{ PORT: ' ' }] both loops throw the [TypeError] of [validateValue] at
    [constructor], and no value mapping is returned. *)
Theorem whitespace_number_unbound_at_proto :
  Env.own proto_space_env !! "__proto__" = Some " "
  ∧ validateValue JSON_parse (Some " ") "number"
    = Normal (Validation.mk true (VNum (S754_zero false)) None)
  ∧ createEnvValidator_loop JSON_parse [("__proto__", "number")] proto_space_env
    = Normal ([], Values.empty)
  ∧ validateEnv JSON_parse process_env [("__proto__", "number")]
      (Some proto_space_env)
    = Normal {| ValidationResult.valid := true;
                ValidationResult.errors := [];
                ValidationResult.values := Values.empty |}
  ∧ Values.bound Values.empty !! "__proto__" = None
  ∧ Env.own space_env !! "PORT" = Some " "
  ∧ createEnvValidator_loop JSON_parse
      [("PORT", "number"); ("constructor", "boolean")] space_env
    = Abrupt no_toLowerCase
  ∧ validateEnv JSON_parse process_env
      [("PORT", "number"); ("constructor", "boolean")] (Some space_env)
    = Abrupt no_toLowerCase.
Proof. repeat split. Qed.

(** *** The two layers side by side *)

Lemma verdict_missing_falsy env entry :
  verdict JSON_parse env entry = Missing → falsy (Env.get env entry.1) = true.
Proof.
  unfold verdict. destruct (falsy (Env.get env entry.1)); [done |].
  destruct (validateValue_any JSON_parse _ _) as [r|]; [| done].
  by destruct (Validation.valid r).
Qed.

Lemma errors_same env (schema : EnvSchema) :
  Forall2 same_error
    (omap (entry_error JSON_parse missing_createEnvValidator env) schema)
    (omap (entry_error JSON_parse missing_validateEnv env) schema).
Proof.
  induction schema as [|[k t] schema IH]; [constructor |].
  cbn [omap list_omap]. unfold entry_error.
  destruct (verdict JSON_parse env (k, t)) eqn:Ev; cbn [fst snd]; try done.
  - constructor; [| done]. unfold same_error. cbn.
    repeat split. right. repeat split.
    by apply verdict_missing_falsy in Ev.
  - constructor; [| done]. unfold same_error. cbn. repeat split. by left.
Qed.

(** C5: for every schema and environment, the loop of
    [createEnvValidator] and the loop of [validateEnv] end the same way.
    When [validateEnv] returns, [createEnvValidator] with
    [throwOnError: false] returns its value mapping, and the two error
    lists have the same length and agree entry by entry on key, descriptor
    and raw value, and on the reason except for the wording of the
    missing-value error.  When [validateEnv] throws, [createEnvValidator]
    throws the same exception. *)
Theorem layers_agree {W : Type} (schema : EnvSchema) (env : option Env.t) (w : W) :
  match validateEnv JSON_parse process_env schema env with
  | Normal result =>
      ∃ errors1,
        createEnvValidator_loop JSON_parse schema (default process_env env)
        = Normal (errors1, ValidationResult.values result)
        ∧ length errors1 = length (ValidationResult.errors result)
        ∧ Forall2 same_error errors1 (ValidationResult.errors result)
        ∧ createEnvValidator JSON_parse process_env schema
            (Some (ValidatorOptions.mk (Some false) env None)) w
          = (w, Normal (ValidationResult.values result))
  | Abrupt e =>
      createEnvValidator_loop JSON_parse schema (default process_env env)
      = Abrupt e
      ∧ createEnvValidator JSON_parse process_env schema
          (Some (ValidatorOptions.mk (Some false) env None)) w
        = (w, Abrupt e)
  end.
Proof.
  unfold createEnvValidator.
  cbn [default from_option id ValidatorOptions.env ValidatorOptions.throwOnError
       ValidatorOptions.onError].
  rewrite createEnvValidator_loop_closed, validateEnv_closed.
  cbn [default from_option id].
  destruct (first_raised JSON_parse _ schema); [done |].
  eexists. split; [reflexivity |].
  cbn [ValidationResult.values ValidationResult.errors].
  split; [eapply Forall2_length, errors_same |].
  split; [apply errors_same |].
  by destruct (0 <? length _)%nat.
Qed.

(** ** Further properties of the source *)

(** *** The parser loses nothing *)

(** X1: the base tag followed by [?] when the entry is optional is the
    descriptor again, and an entry is optional exactly when its descriptor
    ends in [?]. *)
Theorem parseTypeString_round_trip typeStr :
  TypeString.type (parseTypeString typeStr)
  +:+ (if TypeString.optional (parseTypeString typeStr) then "?" else "")
  = typeStr
  ∧ (TypeString.optional (parseTypeString typeStr) = true
     ↔ ∃ base, typeStr = base +:+ "?").
Proof.
  split; [| apply endsWith_question].
  destruct (snoc_cases typeStr) as [-> | (b & c & ->)]; [done |].
  unfold parseTypeString. rewrite (endsWith_snoc b c "?").
  destruct (Ascii.eqb_spec c "?") as [-> | Hne];
    cbn [TypeString.type TypeString.optional].
  - by rewrite slice_drop_last.
  - apply append_nil_r.
Qed.

(** *** The composite message *)

(** X2: the message of the composite error starts with the fixed header
    and contains the line of every error: its key and its reason; the
    lines of two non-empty lists put end to end are their lines, in order. *)
Theorem fullMessage_names_every_error errors :
  String.prefix "Environment validation failed:" (fullMessage errors) = true
  ∧ (∀ e, e ∈ errors → includes (fullMessage errors) (bullet_line e) = true)
  ∧ (∀ errors1 errors2,
       errors = errors1 ++ errors2 → errors1 ≠ [] → errors2 ≠ [] →
       errorMessage errors
       = errorMessage errors1 +:+ String (ascii_of_nat 10) ""
         +:+ errorMessage errors2).
Proof.
  split; [apply prefix_app |]. split.
  - intros e He. unfold fullMessage, errorMessage.
    apply includes_app_r, includes_app_r, includes_join.
    apply list_elem_of_In, in_map_iff. exists e. split; [done |].
    by apply list_elem_of_In.
  - intros errors1 errors2 -> H1 H2. unfold errorMessage.
    rewrite map_app. apply join_app; by destruct errors1, errors2.
Qed.

(** *** When the loops throw *)

Lemma existsb_eqb_elem_of key (l : list string) :
  existsb (String.eqb key) l = true ↔ key ∈ l.
Proof.
  rewrite existsb_exists. split.
  - intros (x & Hin%list_elem_of_In & Heq%String.eqb_eq). by subst.
  - intros Hin. exists key. split; [by apply list_elem_of_In | apply String.eqb_refl].
Qed.

Lemma Object_prototype_get_undefined key :
  key ∉ Object_prototype_keys → Object_prototype_get key = PUndefined.
Proof.
  unfold Object_prototype_keys. intros Hk.
  apply not_elem_of_cons in Hk as [H1 Hk].
  apply not_elem_of_cons in Hk as [H2 Hk].
  unfold Object_prototype_get.
  apply String.eqb_neq in H1, H2. rewrite H1, H2.
  destruct (existsb _ _) eqn:He; [| done].
  by apply existsb_eqb_elem_of in He.
Qed.

Lemma Object_prototype_get_inherited key m :
  Object_prototype_get key = PInherited m →
  key ∈ Object_prototype_keys
  ∧ m = (if String.eqb key "__proto__" then ThePrototype
         else if String.eqb key "constructor" then Builtin "Object"
         else Builtin key).
Proof.
  unfold Object_prototype_get, Object_prototype_keys.
  destruct (String.eqb_spec key "__proto__") as [-> | N1].
  { intros [= <-]. split; [left | done]. }
  destruct (String.eqb_spec key "constructor") as [-> | N2].
  { intros [= <-]. split; [right; left | done]. }
  destruct (existsb _ _) eqn:He; [| done].
  intros [= <-]. split; [| done].
  right. right. by apply existsb_eqb_elem_of.
Qed.

Lemma Env_get_inherited env key m :
  Env.get env key = PInherited m →
  Env.own env !! key = None
  ∧ (key ∉ Env.undefined_keys env)
  ∧ Env.prototype env = ObjectPrototype
  ∧ Object_prototype_get key = PInherited m.
Proof.
  unfold Env.get. destruct (Env.own env !! key); [done |].
  destruct (decide (key ∈ Env.undefined_keys env)); [done |].
  by destruct (Env.prototype env).
Qed.

Lemma throws_on_true env entry :
  throws_on env entry = true
  ↔ (∃ m, Env.get env entry.1 = PInherited m)
    ∧ TypeString.type (parseTypeString entry.2) = "boolean".
Proof.
  unfold throws_on. destruct (Env.get env entry.1) as [|s|m].
  - split; [done | by intros [[? ?] _]].
  - split; [done | by intros [[? ?] _]].
  - rewrite String.eqb_eq. split; [eauto | by intros [_ ?]].
Qed.

(** X12: each loop throws exactly when some entry of the schema has
    base tag [boolean] and a key that the environment answers with an
    inherited member of [Object.prototype]; what it throws is the
    [TypeError] of the call of [toLowerCase].  Over an environment without
    prototype, or a schema that uses none of the names of
    [Object.prototype], or whose keys are all own properties of the
    environment, both loops return. *)
Theorem loops_throw_exactly_on_inherited_boolean (schema : EnvSchema) env :
  ((∃ result, validateEnv JSON_parse process_env schema (Some env) = Normal result)
   ↔ no_throw env schema)
  ∧ ((∃ errors values,
        createEnvValidator_loop JSON_parse schema env = Normal (errors, values))
     ↔ no_throw env schema)
  ∧ (∀ e, validateEnv JSON_parse process_env schema (Some env) = Abrupt e
          ∨ createEnvValidator_loop JSON_parse schema env = Abrupt e →
          e = no_toLowerCase
          ∧ ∃ key typeStr m,
              (key, typeStr) ∈ schema
              ∧ Env.get env key = PInherited m
              ∧ TypeString.type (parseTypeString typeStr) = "boolean")
  ∧ (Env.prototype env = NullPrototype → no_throw env schema)
  ∧ ((∀ key, key ∈ schema.*1 → key ∉ Object_prototype_keys) → no_throw env schema)
  ∧ ((∀ key, key ∈ schema.*1 → is_Some (Env.own env !! key)) → no_throw env schema).
Proof.
  rewrite validateEnv_closed_env, createEnvValidator_loop_closed.
  pose proof (first_raised_None env schema) as HN.
  pose proof (first_raised_Some env schema) as HS.
  assert ((∀ key, key ∈ schema.*1 → ∀ m, Env.get env key ≠ PInherited m) →
          no_throw env schema) as Hsafe.
  { intros Hk. apply Forall_forall. intros [k t] Hin.
    destruct (throws_on env (k, t)) eqn:Ht; [| done].
    apply throws_on_true in Ht as [[m Hm] _]. cbn [fst] in Hm.
    destruct (Hk k) with m; [| done].
    apply list_elem_of_fmap. by exists (k, t). }
  destruct (first_raised JSON_parse env schema) as [e0|].
  - split; [split; [by intros [? ?] | by intros ?%HN] |].
    split; [split; [by intros (? & ? & ?) | by intros ?%HN] |].
    split.
    { intros e He. assert (e = e0) as -> by (by destruct He as [[= ->] | [= ->]]).
      destruct (HS e0) as [[-> ([k t] & Hin & Ht)] _]; [done |].
      split; [done |].
      apply throws_on_true in Ht as [[m Hm] Hb]. by exists k, t, m. }
    split; [| split].
    + intros Hp. apply Hsafe. intros key _ m (_ & _ & Hp' & _)%Env_get_inherited.
      congruence.
    + intros Hk. apply Hsafe.
      intros key Hkey m
        (_ & _ & _ & [Hin _]%Object_prototype_get_inherited)%Env_get_inherited.
      by apply (Hk key).
    + intros Hk. apply Hsafe. intros key Hkey m (Ho & _)%Env_get_inherited.
      destruct (Hk key Hkey) as [s Hs]. congruence.
  - assert (no_throw env schema) as Hn by (by apply HN).
    split; [split; [done | eauto] |].
    split; [split; [done | eauto] |].
    split; [by intros e [? | ?] |].
    done.
Qed.

(** *** What the loops record and bind *)

Lemma boolean_exclusive raw :
  (toLowerCase raw = "true" ∨ raw = "1") →
  (toLowerCase raw = "false" ∨ raw = "0") → False.
Proof.
  intros [H1 | H1] [H2 | H2]; try congruence; subst raw.
  - vm_compute in H1. discriminate H1.
  - vm_compute in H2. discriminate H2.
Qed.

(** The outcomes of [validateValue] on a non-empty raw value. *)
Lemma validateValue_cases raw tag :
  raw ≠ "" →
  ∃ r, validateValue JSON_parse (Some raw) tag = Normal r
       ∧ ((Validation.valid r = true
           ∧ ((tag = "string" ∧ Validation.parsed r = VStr raw)
              ∨ (tag = "number" ∧ Validation.parsed r = VNum (Number raw)
                 ∧ isNaN (Number raw) = false)
              ∨ (tag = "boolean"
                 ∧ ∃ b, Validation.parsed r = VBool b
                        ∧ (b = true ↔ ci_match raw "true" ∨ raw = "1")
                        ∧ (b = false ↔ ci_match raw "false" ∨ raw = "0"))
              ∨ (tag = "json" ∧ JSON_parse raw = Normal (Validation.parsed r))))
          ∨ (Validation.valid r = false
             ∧ ((tag = "number" ∧ isNaN (Number raw) = true
                 ∧ Validation.reason r = Some (number_reason raw))
                ∨ (tag = "boolean"
                   ∧ ¬ (ci_match raw "true" ∨ raw = "1")
                   ∧ ¬ (ci_match raw "false" ∨ raw = "0")
                   ∧ Validation.reason r = Some (boolean_reason raw))
                ∨ (tag = "json" ∧ (∃ thrown, JSON_parse raw = Abrupt thrown)
                   ∧ Validation.reason r = Some (json_reason raw))
                ∨ (¬ known_tag tag
                   ∧ Validation.reason r = Some ("Unknown type: " +:+ tag))))).
Proof.
  intros Hraw.
  assert (lower_word "true") as Lt
    by (repeat split; apply Nat.leb_le; reflexivity).
  assert (lower_word "false") as Lf
    by (repeat split; apply Nat.leb_le; reflexivity).
  pose proof (toLowerCase_ci_match raw "true" Lt) as Ht.
  pose proof (toLowerCase_ci_match raw "false" Lf) as Hf.
  unfold validateValue. apply String.eqb_neq in Hraw as Hraw'. rewrite Hraw'.
  destruct (String.eqb_spec tag "string") as [-> | N1].
  { eexists. split; [reflexivity |]. left. split; [done |]. by left. }
  destruct (String.eqb_spec tag "number") as [-> | N2].
  { destruct (isNaN (Number raw)) eqn:En; eexists; (split; [reflexivity |]).
    - right. split; [done |]. by left.
    - left. split; [done |]. right. by left. }
  destruct (String.eqb_spec tag "boolean") as [-> | N3].
  { destruct (String.eqb_spec (toLowerCase raw) "true") as [Et | Et];
      destruct (String.eqb_spec raw "1") as [E1 | E1]; cbn [orb].
    1-3: eexists; split; [reflexivity |]; left; split; [done |];
      right; right; left; split; [done |]; exists true; split; [done |];
      (split; [split; [intros _; rewrite <- Ht; tauto | done] |]);
      (split; [done |]); rewrite <- Hf; intros H;
      exfalso; apply (boolean_exclusive raw); tauto.
    destruct (String.eqb_spec (toLowerCase raw) "false") as [Ef | Ef];
      destruct (String.eqb_spec raw "0") as [E0 | E0]; cbn [orb].
    1-3: eexists; split; [reflexivity |]; left; split; [done |];
      right; right; left; split; [done |]; exists false; split; [done |];
      (split; [split; [done | rewrite <- Ht; tauto] |]);
      split; [intros _; rewrite <- Hf; tauto | done].
    eexists. split; [reflexivity |]. right. split; [done |].
    right. left. rewrite <- Ht, <- Hf. repeat split; tauto. }
  destruct (String.eqb_spec tag "json") as [-> | N4].
  { destruct (JSON_parse raw) as [parsed | thrown] eqn:Ej; cbn [bind try_catch];
      eexists; (split; [reflexivity |]).
    - left. split; [done |]. right. right. right. done.
    - right. split; [done |]. right. right. left. eauto. }
  eexists. split; [reflexivity |]. right. split; [done |].
  right. right. right. split; [| done].
  unfold known_tag. tauto.
Qed.

(** The outcomes of [validateValue] on what a read can give, when it
    returns. *)
Lemma validateValue_any_cases value tag r :
  falsy value = false →
  validateValue_any JSON_parse value tag = Normal r →
  (Validation.valid r = true
   ∧ ((tag = "string" ∧ Validation.parsed r = to_value value)
      ∨ (tag = "number"
         ∧ Validation.parsed r = VNum (Number (PropertyValue_text value))
         ∧ isNaN (Number (PropertyValue_text value)) = false)
      ∨ (tag = "boolean"
         ∧ value = PString (PropertyValue_text value)
         ∧ ∃ b, Validation.parsed r = VBool b
                ∧ (b = true ↔ ci_match (PropertyValue_text value) "true"
                              ∨ PropertyValue_text value = "1")
                ∧ (b = false ↔ ci_match (PropertyValue_text value) "false"
                               ∨ PropertyValue_text value = "0"))
      ∨ (tag = "json"
         ∧ JSON_parse (PropertyValue_text value) = Normal (Validation.parsed r))))
  ∨ (Validation.valid r = false
     ∧ ((tag = "number" ∧ isNaN (Number (PropertyValue_text value)) = true
         ∧ Validation.reason r = Some (number_reason (PropertyValue_text value)))
        ∨ (tag = "boolean"
           ∧ value = PString (PropertyValue_text value)
           ∧ ¬ (ci_match (PropertyValue_text value) "true"
                ∨ PropertyValue_text value = "1")
           ∧ ¬ (ci_match (PropertyValue_text value) "false"
                ∨ PropertyValue_text value = "0")
           ∧ Validation.reason r = Some (boolean_reason (PropertyValue_text value)))
        ∨ (tag = "json"
           ∧ (∃ thrown, JSON_parse (PropertyValue_text value) = Abrupt thrown)
           ∧ Validation.reason r = Some (json_reason (PropertyValue_text value)))
        ∨ (¬ known_tag tag
           ∧ Validation.reason r = Some ("Unknown type: " +:+ tag)))).
Proof.
  intros Hf Hv. destruct value as [|s|m]; [done | |].
  - assert (s ≠ "") as Hs by (intros ->; done).
    destruct (validateValue_cases s tag Hs) as (r' & Hv' & Hc).
    cbn [validateValue_any] in Hv. rewrite Hv' in Hv. injection Hv as <-.
    cbn [PropertyValue_text to_value].
    destruct Hc as [[Hvalid Hc] | [Hvalid Hc]]; [left | right]; (split; [done |]).
    + destruct Hc as [? | [? | [(? & ?) | ?]]]; tauto.
    + destruct Hc as [? | [(? & ? & ? & ?) | [? | ?]]]; tauto.
  - cbn [PropertyValue_text]. unfold validateValue_any in Hv.
    destruct (String.eqb_spec tag "string") as [-> | N1].
    { injection Hv as <-. left. split; [done |]. by left. }
    destruct (String.eqb_spec tag "number") as [-> | N2].
    { destruct (isNaN (Number (Member_text m))) eqn:En; injection Hv as <-.
      - right. split; [done |]. by left.
      - left. split; [done |]. right. by left. }
    destruct (String.eqb_spec tag "boolean") as [-> | N3]; [done |].
    destruct (String.eqb_spec tag "json") as [-> | N4].
    { destruct (JSON_parse (Member_text m)) as [parsed | thrown] eqn:Ej;
        cbn [bind try_catch] in Hv; injection Hv as <-.
      - left. split; [done |]. right. right. right. done.
      - right. split; [done |]. right. right. left. eauto. }
    injection Hv as <-. right. split; [done |].
    right. right. right. split; [| done].
    unfold known_tag. tauto.
Qed.

Lemma entry_error_shape missing env entry e :
  entry_error JSON_parse missing env entry = Some e →
  error_shape JSON_parse missing env e.
Proof.
  intros He. pose proof (entry_error_fields _ _ _ _ He) as (Hk & Ht & Hr).
  unfold error_shape. rewrite Hk, Ht, Hr. split; [done |].
  unfold entry_error, verdict in He. destruct entry as [k t]. cbn [fst snd] in *.
  destruct (falsy (Env.get env k)) eqn:Hf.
  - destruct (TypeString.optional (parseTypeString t)) eqn:Ho; [done |].
    injection He as <-. left. done.
  - destruct (validateValue_any JSON_parse (Env.get env k)
                (TypeString.type (parseTypeString t))) as [r|thrown] eqn:Hv;
      [| done].
    right. split; [done |].
    destruct (validateValue_any_cases _ _ _ Hf Hv) as [[Hvalid _] | [Hvalid Hcases]];
      rewrite Hvalid in He; [done |].
    injection He as <-. cbn [ValidationError.reason].
    destruct Hcases
      as [(? & ? & ->) | [(? & ? & ? & ? & ->) | [(? & ? & ->) | (? & ->)]]];
      cbn [or_else].
    + left. done.
    + right. left. done.
    + right. right. left. done.
    + right. right. right. split; [done |].
      by destruct (TypeString.type (parseTypeString t)).
Qed.

Lemma entry_value_shape env key typeStr v :
  entry_value JSON_parse env (key, typeStr) = Some v →
  value_shape JSON_parse env key typeStr v.
Proof.
  unfold entry_value, verdict, value_shape. cbn [fst snd].
  destruct (falsy (Env.get env key)) eqn:Hf.
  - destruct (TypeString.optional (parseTypeString typeStr)) eqn:Ho; [| done].
    intros [= <-]. by left.
  - destruct (validateValue_any JSON_parse (Env.get env key)
                (TypeString.type (parseTypeString typeStr))) as [r|thrown] eqn:Hv;
      [| done].
    intros He. right. split; [done |].
    destruct (validateValue_any_cases _ _ _ Hf Hv) as [[Hvalid Hcases] | [Hvalid _]];
      rewrite Hvalid in He; [| done].
    injection He as <-.
    destruct Hcases as [(? & ->) | [(? & -> & ?) | [(? & ? & b & -> & ?) | (? & ?)]]].
    + by left.
    + right. by left.
    + right. right. left. eauto.
    + right. right. right. done.
Qed.

(** X3: when no entry throws, both loops return, and every error they
    record is of one of five kinds, told by its fields: a required entry
    whose raw value is [undefined] or empty, reported in the loop's own
    words; or, for any other raw value, a text [Number] reads as [NaN]
    under tag [number], a string that is none of the accepted forms under
    tag [boolean], a text [JSON.parse] throws on under tag [json], or a
    tag [validateValue] has no case for.  The raw value is what the read
    [env[key]] gave, an inherited member included. *)
Theorem recorded_errors_taxonomy (schema : EnvSchema) env :
  no_throw env schema →
  ∃ errors1 values1 result,
    createEnvValidator_loop JSON_parse schema env = Normal (errors1, values1)
    ∧ validateEnv JSON_parse process_env schema (Some env) = Normal result
    ∧ (∀ e, e ∈ errors1 →
         error_shape JSON_parse missing_createEnvValidator env e)
    ∧ (∀ e, e ∈ ValidationResult.errors result →
         error_shape JSON_parse missing_validateEnv env e).
Proof.
  intros Hn. destruct (loops_return env schema Hn) as [-> ->].
  do 3 eexists. split; [reflexivity |]. split; [reflexivity |].
  cbn [ValidationResult.errors].
  split; intros e (entry & _ & He)%errors_elem_of;
    by apply (entry_error_shape _ _ entry).
Qed.

Lemma error_shape_reason_head missing env e :
  (∀ key, String.get 0 (missing key) = Some "R"%char) →
  error_shape JSON_parse missing env e →
  String.get 0 (ValidationError.reason e) = Some "R"%char
  ∨ String.get 0 (ValidationError.reason e) = Some (ascii_of_nat 34)
  ∨ String.get 0 (ValidationError.reason e) = Some "U"%char.
Proof.
  intros Hm [_ [(_ & _ & ->) | (_ & Hr)]]; [left; apply Hm |].
  destruct Hr as [(_ & _ & ->) | [(_ & _ & _ & _ & ->) | [(_ & _ & ->) | (_ & ->)]]].
  - right. by left.
  - right. by left.
  - right. by left.
  - right. by right.
Qed.

(** X4: when no entry throws, the reason [Value is empty or undefined] of
    [validateValue] and the fallback [Validation failed] of the loops are
    never the reason of a recorded error, and no recorded reason is
    empty. *)
Theorem fallback_reasons_never_recorded (schema : EnvSchema) env :
  no_throw env schema →
  ∃ errors1 values1 result,
    createEnvValidator_loop JSON_parse schema env = Normal (errors1, values1)
    ∧ validateEnv JSON_parse process_env schema (Some env) = Normal result
    ∧ (∀ e, e ∈ errors1 ∨ e ∈ ValidationResult.errors result →
         ValidationError.reason e ≠ "Value is empty or undefined"
         ∧ ValidationError.reason e ≠ "Validation failed"
         ∧ ValidationError.reason e ≠ "").
Proof.
  intros Hn. destruct (loops_return env schema Hn) as [-> ->].
  do 3 eexists. split; [reflexivity |]. split; [reflexivity |].
  cbn [ValidationResult.errors].
  assert (∀ e,
            String.get 0 (ValidationError.reason e) = Some "R"%char
            ∨ String.get 0 (ValidationError.reason e) = Some (ascii_of_nat 34)
            ∨ String.get 0 (ValidationError.reason e) = Some "U"%char →
            ValidationError.reason e ≠ "Value is empty or undefined"
            ∧ ValidationError.reason e ≠ "Validation failed"
            ∧ ValidationError.reason e ≠ "") as Hhead.
  { intros e H. repeat split; intros Heq; rewrite Heq in H;
      destruct H as [H | [H | H]]; discriminate H. }
  intros e [(entry & _ & He)%errors_elem_of | (entry & _ & He)%errors_elem_of];
    apply Hhead; apply entry_error_shape in He;
    refine (error_shape_reason_head _ env e _ He); intros key; reflexivity.
Qed.

(** X5: over a schema with distinct keys in which no entry throws, a
    value bound to a key comes from that key's entry and raw value alone:
    [undefined] for an optional entry whose raw value is [undefined] or
    empty; otherwise the raw value itself under tag [string], the number
    [Number] reads, never [NaN], under tag [number], the boolean the raw
    text spells under tag [boolean], what [JSON.parse] returned under tag
    [json].  Nothing is bound under any other tag, and nothing is bound to
    the key [__proto__]. *)
Theorem bound_values_have_declared_type (schema : EnvSchema) env :
  NoDup schema.*1 →
  no_throw env schema →
  ∃ errors1 values1 result,
    createEnvValidator_loop JSON_parse schema env = Normal (errors1, values1)
    ∧ validateEnv JSON_parse process_env schema (Some env) = Normal result
    ∧ (∀ key typeStr v,
         (key, typeStr) ∈ schema →
         Values.bound values1 !! key = Some v
         ∨ Values.bound (ValidationResult.values result) !! key = Some v →
         value_shape JSON_parse env key typeStr v)
    ∧ Values.bound values1 !! "__proto__" = None
    ∧ Values.bound (ValidationResult.values result) !! "__proto__" = None.
Proof.
  intros Hnd Hn. destruct (loops_return env schema Hn) as [-> ->].
  do 3 eexists. split; [reflexivity |]. split; [reflexivity |].
  cbn [ValidationResult.values].
  assert (Values.bound (fold_left (store_value JSON_parse env) schema Values.empty)
            !! "__proto__" = None) as Hproto
    by (by rewrite values_proto_unbound).
  split; [| done].
  intros key typeStr v Hin Hv.
  assert (Values.bound (fold_left (store_value JSON_parse env) schema Values.empty)
            !! key = Some v) as Hv'
    by (by destruct Hv).
  destruct (decide (key = "__proto__")) as [-> | Hne]; [congruence |].
  rewrite (values_lookup_entry env schema Values.empty key typeStr) in Hv' by done.
  apply entry_value_shape.
  destruct (entry_value JSON_parse env (key, typeStr)); [done |].
  done.
Qed.

(** *** The throwing layer against the result-returning layer *)

(** X6: without a callback, [defineEnv] (and so [createEnvValidator])
    ends as [validateEnv] does: it throws what [validateEnv] throws; when
    [validateEnv] returns, it returns the same value mapping if the
    environment was found valid or [throwOnError] is [false], and otherwise
    throws the composite error made from its own error list.  Leaving the
    options out is passing the empty options.  When the environment is
    valid the returned mapping binds exactly the keys of the schema, the
    key [__proto__] apart, which is never bound. *)
Theorem defineEnv_throws_iff_invalid {W : Type} (schema : EnvSchema)
  (throwOnError : option bool) (env : option Env.t) (w : W) :
  defineEnv JSON_parse process_env schema None w
  = defineEnv JSON_parse process_env schema
      (Some (ValidatorOptions.mk None None None)) w
  ∧ match validateEnv JSON_parse process_env schema env with
    | Normal result =>
        ∃ errors1,
          createEnvValidator_loop JSON_parse schema (default process_env env)
          = Normal (errors1, ValidationResult.values result)
          ∧ defineEnv JSON_parse process_env schema
              (Some (ValidatorOptions.mk throwOnError env None)) w
            = (w, if ValidationResult.valid result || negb (default true throwOnError)
                  then Normal (ValidationResult.values result)
                  else Abrupt (ThrowError (fullMessage errors1)))
          ∧ (ValidationResult.valid result = true →
             (∀ key, key ≠ "__proto__" →
                is_Some (Values.bound (ValidationResult.values result) !! key)
                ↔ key ∈ schema.*1)
             ∧ (NoDup schema.*1 →
                Values.bound (ValidationResult.values result) !! "__proto__" = None))
    | Abrupt e =>
        defineEnv JSON_parse process_env schema
          (Some (ValidatorOptions.mk throwOnError env None)) w
        = (w, Abrupt e)
    end.
Proof.
  split; [done |].
  unfold defineEnv, createEnvValidator.
  cbn [default from_option id ValidatorOptions.env ValidatorOptions.throwOnError
       ValidatorOptions.onError].
  rewrite createEnvValidator_loop_closed, validateEnv_closed.
  cbn [default from_option id].
  set (env' := from_option id process_env env).
  destruct (first_raised JSON_parse env' schema) eqn:Hfr; [done |].
  apply first_raised_None in Hfr.
  eexists. split; [reflexivity |].
  cbn [ValidationResult.values ValidationResult.errors ValidationResult.valid].
  pose proof (Forall2_length _ _ _ (errors_same env' schema)) as Hlen.
  split.
  - rewrite <- Hlen.
    destruct (omap (entry_error JSON_parse missing_createEnvValidator env') schema);
      cbn [length Nat.ltb Nat.leb Nat.eqb orb]; [done |].
    by destruct throwOnError as [[]|].
  - intros Hvalid%Nat.eqb_eq%nil_length_inv. split.
    + intros key Hkey. rewrite values_is_Some by done. split.
      * intros [[? [=]] | (t & Hin & _)]. apply list_elem_of_fmap. by exists (key, t).
      * intros ([k t] & -> & Hin)%list_elem_of_fmap. right. exists t.
        split; [done |].
        apply (entry_error_or_value missing_validateEnv).
        { unfold no_throw in Hfr. rewrite Forall_forall in Hfr. by apply Hfr. }
        destruct (entry_error JSON_parse missing_validateEnv env' (k, t))
          as [e|] eqn:He; [| done].
        assert (e ∈ omap (entry_error JSON_parse missing_validateEnv env') schema)
          as Hin' by (apply errors_elem_of; eauto).
        rewrite Hvalid in Hin'. by apply elem_of_nil in Hin'.
    + intros Hnd. by rewrite values_proto_unbound.
Qed.

(** *** Only the variables the schema names are read *)

Lemma verdict_ext env env' entry :
  Env.get env entry.1 = Env.get env' entry.1 →
  verdict JSON_parse env entry = verdict JSON_parse env' entry.
Proof. intros H. unfold verdict. by rewrite H. Qed.

Lemma entry_error_ext missing env env' entry :
  Env.get env entry.1 = Env.get env' entry.1 →
  entry_error JSON_parse missing env entry
  = entry_error JSON_parse missing env' entry.
Proof. intros H. unfold entry_error. by rewrite (verdict_ext env env'), H. Qed.

Lemma store_value_ext env env' values entry :
  Env.get env entry.1 = Env.get env' entry.1 →
  store_value JSON_parse env values entry
  = store_value JSON_parse env' values entry.
Proof.
  intros H. unfold store_value, entry_value. by rewrite (verdict_ext env env').
Qed.

Lemma per_entry_ext missing env env' (schema : EnvSchema) :
  (∀ key, key ∈ schema.*1 → Env.get env key = Env.get env' key) →
  first_raised JSON_parse env schema = first_raised JSON_parse env' schema
  ∧ omap (entry_error JSON_parse missing env) schema
    = omap (entry_error JSON_parse missing env') schema
  ∧ ∀ values,
      fold_left (store_value JSON_parse env) schema values
      = fold_left (store_value JSON_parse env') schema values.
Proof.
  induction schema as [|[k t] schema IH]; intros Hagree; [done |].
  assert (Env.get env k = Env.get env' k) as Hk by (apply Hagree; left).
  destruct IH as (IHr & IHe & IHv); [intros key Hkey; apply Hagree; by right |].
  split; [| split].
  - cbn [first_raised].
    by rewrite (verdict_ext env env' (k, t)), IHr.
  - cbn [omap list_omap].
    by rewrite (entry_error_ext missing env env' (k, t)), IHe.
  - intros values. cbn [fold_left].
    by rewrite (store_value_ext env env' values (k, t)), IHv.
Qed.

(** X7: both loops read the environment only at the keys of the schema:
    two environments that agree there give the same errors, values and
    flag, or the same exception; in particular every variable the schema
    does not name can be dropped. *)
Theorem unlisted_variables_ignored (schema : EnvSchema) (env : Env.t) :
  (∀ env' : Env.t,
     (∀ key, key ∈ schema.*1 → Env.get env key = Env.get env' key) →
     createEnvValidator_loop JSON_parse schema env
     = createEnvValidator_loop JSON_parse schema env'
     ∧ validateEnv JSON_parse process_env schema (Some env)
       = validateEnv JSON_parse process_env schema (Some env'))
  ∧ createEnvValidator_loop JSON_parse schema env
    = createEnvValidator_loop JSON_parse schema (Env.restrict schema.*1 env)
  ∧ validateEnv JSON_parse process_env schema (Some env)
    = validateEnv JSON_parse process_env schema
        (Some (Env.restrict schema.*1 env)).
Proof.
  assert (∀ env' : Env.t,
            (∀ key, key ∈ schema.*1 → Env.get env key = Env.get env' key) →
            createEnvValidator_loop JSON_parse schema env
            = createEnvValidator_loop JSON_parse schema env'
            ∧ validateEnv JSON_parse process_env schema (Some env)
              = validateEnv JSON_parse process_env schema (Some env')) as Hext.
  { intros env' Hagree.
    rewrite !createEnvValidator_loop_closed, !validateEnv_closed_env.
    destruct (per_entry_ext missing_createEnvValidator env env' schema Hagree)
      as (Hr & He1 & Hv).
    destruct (per_entry_ext missing_validateEnv env env' schema Hagree)
      as (_ & He2 & _).
    by rewrite Hr, He1, He2, Hv. }
  split; [exact Hext |].
  apply Hext. intros key Hkey. by rewrite Env_get_restrict.
Qed.

(** *** Order and composition of entries *)

Lemma set_commute values k1 v1 k2 v2 :
  k1 ≠ k2 →
  Values.set (Values.set values k1 v1) k2 v2
  = Values.set (Values.set values k2 v2) k1 v1.
Proof.
  intros Hne. unfold Values.set.
  destruct (String.eqb_spec k1 "__proto__") as [-> | N1];
    destruct (String.eqb_spec k2 "__proto__") as [-> | N2]; [done | | |];
    cbn [andb].
  - destruct (Values.reaches_setter (Values.prototype values)) eqn:Hr.
    + destruct (Values.is_object_or_null v1); cbn [Values.prototype Values.bound];
        by rewrite ?Hr.
    + cbn [Values.prototype Values.bound]. rewrite Hr.
      by rewrite insert_insert_ne.
  - destruct (Values.reaches_setter (Values.prototype values)) eqn:Hr.
    + destruct (Values.is_object_or_null v2); cbn [Values.prototype Values.bound];
        by rewrite ?Hr.
    + cbn [Values.prototype Values.bound]. rewrite Hr.
      by rewrite insert_insert_ne.
  - cbn [Values.prototype Values.bound]. by rewrite insert_insert_ne.
Qed.

Lemma store_value_commute env values entry1 entry2 :
  entry1.1 ≠ entry2.1 →
  store_value JSON_parse env (store_value JSON_parse env values entry1) entry2
  = store_value JSON_parse env (store_value JSON_parse env values entry2) entry1.
Proof.
  intros Hne. unfold store_value.
  destruct (entry_value JSON_parse env entry1),
    (entry_value JSON_parse env entry2); try done.
  by apply set_commute.
Qed.

Lemma values_Permutation env (schema schema' : EnvSchema) :
  schema ≡ₚ schema' → NoDup schema.*1 →
  ∀ values,
    fold_left (store_value JSON_parse env) schema values
    = fold_left (store_value JSON_parse env) schema' values.
Proof.
  induction 1 as [|x l l' Hp IH|x y l|l l' l'' Hp1 IH1 Hp2 IH2];
    intros Hnd values.
  - done.
  - rewrite fmap_cons in Hnd. apply NoDup_cons in Hnd as [_ Hnd].
    cbn [fold_left]. by apply IH.
  - rewrite !fmap_cons in Hnd. apply NoDup_cons in Hnd as [Hy _].
    cbn [fold_left]. rewrite (store_value_commute env values y x); [done |].
    intros Heq. apply Hy. rewrite Heq. left.
  - rewrite IH1 by done. apply IH2. by rewrite <- Hp1.
Qed.

Lemma first_raised_Permutation env (schema schema' : EnvSchema) :
  schema ≡ₚ schema' →
  first_raised JSON_parse env schema = first_raised JSON_parse env schema'.
Proof.
  intros Hp.
  destruct (first_raised JSON_parse env schema) as [e|] eqn:H1.
  - symmetry. apply first_raised_Some.
    apply first_raised_Some in H1 as [-> (entry & Hin & Ht)].
    split; [done |]. exists entry. split; [by rewrite <- Hp | done].
  - symmetry. apply first_raised_None.
    apply first_raised_None in H1. unfold no_throw in *. by rewrite <- Hp.
Qed.

(** X8: over a schema with distinct keys, the order of the entries
    decides only the order of the errors: the same entries in another order
    make each loop throw the same exception, or return the same value
    mapping, the same flag, and the same errors in the matching order. *)
Theorem schema_order_only_orders_errors (schema schema' : EnvSchema) env :
  schema ≡ₚ schema' →
  NoDup schema.*1 →
  match createEnvValidator_loop JSON_parse schema env,
        createEnvValidator_loop JSON_parse schema' env with
  | Normal (errors1, values1), Normal (errors1', values1') =>
      values1 = values1' ∧ errors1 ≡ₚ errors1'
  | Abrupt e, Abrupt e' => e = e'
  | _, _ => False
  end
  ∧ match validateEnv JSON_parse process_env schema (Some env),
          validateEnv JSON_parse process_env schema' (Some env) with
    | Normal result, Normal result' =>
        ValidationResult.values result = ValidationResult.values result'
        ∧ ValidationResult.errors result ≡ₚ ValidationResult.errors result'
        ∧ ValidationResult.valid result = ValidationResult.valid result'
    | Abrupt e, Abrupt e' => e = e'
    | _, _ => False
    end.
Proof.
  intros Hp Hnd.
  rewrite !createEnvValidator_loop_closed, !validateEnv_closed_env.
  rewrite <- (first_raised_Permutation env schema schema' Hp).
  destruct (first_raised JSON_parse env schema); [done |].
  cbn [ValidationResult.values ValidationResult.errors ValidationResult.valid].
  split; [split |].
  - by apply values_Permutation.
  - by rewrite Hp.
  - split; [by apply values_Permutation |].
    split; by rewrite Hp.
Qed.

Lemma first_raised_app env (schema1 schema2 : EnvSchema) :
  first_raised JSON_parse env (schema1 ++ schema2)
  = match first_raised JSON_parse env schema1 with
    | Some e => Some e
    | None => first_raised JSON_parse env schema2
    end.
Proof.
  induction schema1 as [|entry schema1 IH]; [done |].
  cbn [app first_raised]. by destruct (verdict JSON_parse env entry).
Qed.

Lemma store_value_union env values entry :
  (entry.1 = "__proto__" →
   Values.reaches_setter (Values.prototype values) = true) →
  Values.bound (store_value JSON_parse env values entry)
  = Values.bound (store_value JSON_parse env Values.empty entry)
    ∪ Values.bound values.
Proof.
  intros Hr. unfold store_value.
  destruct (entry_value JSON_parse env entry) as [v|];
    [| cbn [Values.bound Values.empty]; by rewrite (left_id ∅ (∪))].
  destruct (decide (entry.1 = "__proto__")) as [E | Hne].
  - rewrite E, !set_proto by (by auto).
    cbn [Values.bound Values.empty]. by rewrite (left_id ∅ (∪)).
  - rewrite !set_ordinary by done. cbn [Values.bound Values.empty].
    by rewrite insert_empty, insert_union_singleton_l.
Qed.

Lemma values_union env (schema : EnvSchema) values :
  NoDup schema.*1 →
  ("__proto__" ∈ schema.*1 →
   Values.reaches_setter (Values.prototype values) = true) →
  Values.bound (fold_left (store_value JSON_parse env) schema values)
  = Values.bound (fold_left (store_value JSON_parse env) schema Values.empty)
    ∪ Values.bound values.
Proof.
  revert values. induction schema as [|[k t] schema IH]; intros values Hnd Hr.
  - cbn [fold_left Values.bound Values.empty]. by rewrite (left_id ∅ (∪)).
  - rewrite fmap_cons in Hnd, Hr. apply NoDup_cons in Hnd as [Hk Hnd].
    cbn [fst] in Hk, Hr.
    assert (∀ values0,
              ("__proto__" ∈ schema.*1 →
               Values.reaches_setter (Values.prototype values0) = true) →
              "__proto__" ∈ schema.*1 →
              Values.reaches_setter
                (Values.prototype (store_value JSON_parse env values0 (k, t)))
              = true) as Hstep.
    { intros values0 H0 Hin. rewrite store_value_prototype; [by apply H0 |].
      cbn [fst]. intros ->. done. }
    cbn [fold_left]. rewrite IH; [| done |].
    + rewrite (IH (store_value JSON_parse env Values.empty (k, t))); [| done |].
      * rewrite (store_value_union env values (k, t)).
        -- by rewrite (assoc (∪)).
        -- cbn [fst]. intros ->. apply Hr. left.
      * by apply Hstep.
    + apply Hstep. intros Hin. apply Hr. by right.
Qed.

(** X9: the loops handle the entries one after the other, each on its
    own.  Over two lists of entries put end to end, [validateEnv] throws
    what it throws on the first list, or else what it throws on the
    second; when it returns on both it returns the errors of the first
    followed by the errors of the second and the conjunction of the two
    flags, and, the keys being distinct, binds what either run binds. *)
Theorem validateEnv_app (schema1 schema2 : EnvSchema) env :
  match validateEnv JSON_parse process_env schema1 env,
        validateEnv JSON_parse process_env schema2 env with
  | Normal result1, Normal result2 =>
      ∃ result,
        validateEnv JSON_parse process_env (schema1 ++ schema2) env = Normal result
        ∧ ValidationResult.errors result
          = ValidationResult.errors result1 ++ ValidationResult.errors result2
        ∧ ValidationResult.valid result
          = ValidationResult.valid result1 && ValidationResult.valid result2
        ∧ (NoDup (schema1 ++ schema2).*1 →
           Values.bound (ValidationResult.values result)
           = Values.bound (ValidationResult.values result2)
             ∪ Values.bound (ValidationResult.values result1))
  | Normal _, Abrupt e =>
      validateEnv JSON_parse process_env (schema1 ++ schema2) env = Abrupt e
  | Abrupt e, _ =>
      validateEnv JSON_parse process_env (schema1 ++ schema2) env = Abrupt e
  end.
Proof.
  rewrite !validateEnv_closed, first_raised_app.
  set (env' := default process_env env).
  destruct (first_raised JSON_parse env' schema1); [done |].
  destruct (first_raised JSON_parse env' schema2); [done |].
  eexists. split; [reflexivity |].
  cbn [ValidationResult.values ValidationResult.errors ValidationResult.valid].
  rewrite omap_app, fold_left_app, length_app.
  split; [done |]. split.
  - by destruct (omap _ schema1), (omap _ schema2).
  - intros Hnd. rewrite fmap_app in Hnd.
    apply NoDup_app in Hnd as (Hnd1 & Hdisj & Hnd2).
    apply values_union; [done |].
    intros Hin. rewrite values_prototype_other; [done |].
    intros Hin1. by apply (Hdisj _ Hin1).
Qed.

(** X10: over a schema with distinct keys in which no entry throws,
    what [validateEnv] reports for a key is what it reports on that key's
    entry alone: the same binding, and the same errors. *)
Theorem validateEnv_per_key (schema : EnvSchema) env key typeStr :
  NoDup schema.*1 →
  (key, typeStr) ∈ schema →
  no_throw (default process_env env) schema →
  ∃ result alone,
    validateEnv JSON_parse process_env schema env = Normal result
    ∧ validateEnv JSON_parse process_env [(key, typeStr)] env = Normal alone
    ∧ Values.bound (ValidationResult.values result) !! key
      = Values.bound (ValidationResult.values alone) !! key
    ∧ filter (λ e, ValidationError.key e = key) (ValidationResult.errors result)
      = ValidationResult.errors alone.
Proof.
  intros Hnd Hin Hn. rewrite !validateEnv_closed.
  set (env' := default process_env env) in *.
  assert (no_throw env' [(key, typeStr)]) as Hn1.
  { unfold no_throw in *. rewrite Forall_forall in Hn.
    apply Forall_singleton. by apply Hn. }
  apply first_raised_None in Hn as ->. apply first_raised_None in Hn1 as ->.
  do 2 eexists. do 2 (split; [reflexivity |]).
  cbn [ValidationResult.values ValidationResult.errors].
  rewrite (errors_filter_key _ env' schema key typeStr) by done.
  split.
  - destruct (decide (key = "__proto__")) as [-> | Hne].
    + rewrite !values_proto_unbound; try done.
      cbn [fmap list_fmap fst]. apply NoDup_singleton.
    + rewrite (values_lookup_entry env' schema Values.empty key typeStr) by done.
      cbn [fold_left]. unfold store_value. cbn [fst].
      destruct (entry_value JSON_parse env' (key, typeStr));
        [by rewrite bound_set_eq | done].
  - cbn [omap list_omap].
    by destruct (entry_error JSON_parse missing_validateEnv env' (key, typeStr)).
Qed.

Lemma errors_values_count missing env (schema : EnvSchema) values :
  NoDup schema.*1 →
  "__proto__" ∉ schema.*1 →
  no_throw env schema →
  (∀ key, key ∈ schema.*1 → Values.bound values !! key = None) →
  length (omap (entry_error JSON_parse missing env) schema)
  + size (Values.bound (fold_left (store_value JSON_parse env) schema values))
  = length schema + size (Values.bound values).
Proof.
  revert values.
  induction schema as [|[k t] schema IH]; intros values Hnd Hp Hn Hfresh.
  - simpl. done.
  - rewrite fmap_cons in Hnd, Hp. apply NoDup_cons in Hnd as [Hk Hnd].
    apply not_elem_of_cons in Hp as [Hkp Hp]. cbn [fst] in Hk, Hkp.
    apply Forall_cons in Hn as [Hkn Hn].
    cbn [omap list_omap fold_left length].
    pose proof (entry_error_or_value missing env (k, t) Hkn) as Hx.
    assert (store_value JSON_parse env values (k, t)
            = match entry_value JSON_parse env (k, t) with
              | Some v => Values.set values k v
              | None => values
              end) as -> by reflexivity.
    destruct (entry_value JSON_parse env (k, t)) as [v|] eqn:Ev.
    + assert (entry_error JSON_parse missing env (k, t) = None) as ->
        by (apply Hx; eauto).
      cbv iota. rewrite set_ordinary by done.
      set (values' := Values.mk (<[k:=v]> (Values.bound values))
                        (Values.prototype values)).
      assert (∀ key, key ∈ schema.*1 → Values.bound values' !! key = None)
        as Hfresh'.
      { intros key Hkey. cbn [values' Values.bound]. rewrite lookup_insert_ne.
        - apply Hfresh. by right.
        - intros ->. done. }
      pose proof (IH values' Hnd Hp Hn Hfresh') as Hcount.
      cbn [values' Values.bound] in Hcount.
      rewrite map_size_insert_None in Hcount by (apply Hfresh; left).
      fold values'. lia.
    + destruct (entry_error JSON_parse missing env (k, t)) as [e|] eqn:Ee.
      * assert (∀ key, key ∈ schema.*1 → Values.bound values !! key = None)
          as Hfresh' by (intros key Hkey; apply Hfresh; by right).
        pose proof (IH values Hnd Hp Hn Hfresh') as Hcount.
        cbn [length]. lia.
      * destruct Hx as [Hx _]. by destruct (Hx eq_refl).
Qed.

(** X11: over a schema with distinct keys, none of them [__proto__], in
    which no entry throws, every entry ends up in exactly one place: the
    number of errors plus the number of bound keys is the number of
    entries, in both loops. *)
Theorem every_entry_counted_once (schema : EnvSchema) env :
  NoDup schema.*1 →
  "__proto__" ∉ schema.*1 →
  no_throw env schema →
  ∃ errors1 values1 result,
    createEnvValidator_loop JSON_parse schema env = Normal (errors1, values1)
    ∧ validateEnv JSON_parse process_env schema (Some env) = Normal result
    ∧ length errors1 + size (Values.bound values1) = length schema
    ∧ length (ValidationResult.errors result)
      + size (Values.bound (ValidationResult.values result))
      = length schema.
Proof.
  intros Hnd Hp Hn. destruct (loops_return env schema Hn) as [-> ->].
  do 3 eexists. do 2 (split; [reflexivity |]).
  cbn [ValidationResult.values ValidationResult.errors].
  rewrite !errors_values_count by done.
  cbn [Values.bound Values.empty]. rewrite map_size_empty. lia.
Qed.

(** *** The result-returning layer, when no entry throws *)

Lemma no_throw_entry env (schema : EnvSchema) entry :
  no_throw env schema → entry ∈ schema → throws_on env entry = false.
Proof. unfold no_throw. rewrite Forall_forall. auto. Qed.

(** X13: when no entry throws, [validateEnv] returns.  Its flag is
    [true] exactly when the error list is empty; the error list holds the
    errors of the entries in schema order, each with the raw value the
    read gave; every key of the schema other than [__proto__] is in the
    error list or bound in the value mapping, and only keys of the schema
    are bound. *)
Theorem validateEnv_aggregate (schema : EnvSchema) env :
  no_throw (default process_env env) schema →
  ∃ result,
    validateEnv JSON_parse process_env schema env = Normal result
    ∧ (ValidationResult.valid result = true ↔ ValidationResult.errors result = [])
    ∧ ValidationResult.errors result
      = omap (entry_error JSON_parse missing_validateEnv (default process_env env)) schema
    ∧ sublist ((λ e, (ValidationError.key e, ValidationError.expected e))
                 <$> ValidationResult.errors result) schema
    ∧ (∀ e, e ∈ ValidationResult.errors result →
         ValidationError.received e
         = Env.get (default process_env env) (ValidationError.key e))
    ∧ (∀ key, key ∈ schema.*1 → key ≠ "__proto__" →
         key ∈ ValidationError.key <$> ValidationResult.errors result
         ∨ is_Some (Values.bound (ValidationResult.values result) !! key))
    ∧ (∀ key, is_Some (Values.bound (ValidationResult.values result) !! key) →
         key ∈ schema.*1).
Proof.
  intros Hn. rewrite validateEnv_closed.
  set (env' := default process_env env) in *.
  pose proof Hn as Hfr. apply first_raised_None in Hfr as ->.
  eexists. split; [reflexivity |].
  cbn [ValidationResult.valid ValidationResult.values ValidationResult.errors].
  split.
  { rewrite Nat.eqb_eq. split; [apply nil_length_inv | by intros ->]. }
  split; [done |].
  split.
  { clear. induction schema as [|[k t] schema' IH]; [done |].
    cbn [omap list_omap].
    destruct (entry_error JSON_parse missing_validateEnv env' (k, t)) as [e|] eqn:He.
    - apply entry_error_fields in He as (Hk & Ht & _). simpl in Hk, Ht.
      rewrite fmap_cons, Hk, Ht. by apply sublist_skip.
    - by apply sublist_cons. }
  split.
  { intros e ([k t] & _ & He)%errors_elem_of.
    apply entry_error_fields in He as (Hk & _ & Hr). simpl in Hk, Hr. by rewrite Hk. }
  split.
  - intros key ([k t] & -> & Hin)%list_elem_of_fmap Hne. simpl in *.
    destruct (entry_error JSON_parse missing_validateEnv env' (k, t)) as [e|] eqn:He.
    + left. apply errors_key_elem_of. exists t. split; [done | by rewrite He].
    + right. apply values_is_Some; [done |]. right. exists t. split; [done |].
      apply (entry_error_or_value missing_validateEnv); [| done].
      by apply (no_throw_entry env' schema).
  - intros key [H | H]%values_bound_schema; [| done].
    cbn [Values.bound Values.empty] in H. rewrite lookup_empty in H.
    by destruct H.
Qed.

(** *** Missing values *)

Lemma verdict_missing env key typeStr :
  falsy (Env.get env key) = true → (∀ base, typeStr ≠ base +:+ "?") →
  verdict JSON_parse env (key, typeStr) = Missing.
Proof.
  intros Hf Hno. unfold verdict. cbn [fst snd].
  by rewrite Hf, parseTypeString_required.
Qed.

Lemma verdict_absent env key base :
  falsy (Env.get env key) = true →
  verdict JSON_parse env (key, base +:+ "?") = Absent.
Proof.
  intros Hf. unfold verdict. cbn [fst snd].
  by rewrite Hf, parseTypeString_optional.
Qed.

Lemma values_lookup_key env (schema : EnvSchema) key typeStr :
  NoDup schema.*1 → (key, typeStr) ∈ schema →
  Values.bound (fold_left (store_value JSON_parse env) schema Values.empty) !! key
  = if decide (key = "__proto__") then None
    else entry_value JSON_parse env (key, typeStr).
Proof.
  intros Hnd Hin. destruct (decide (key = "__proto__")) as [-> | Hne].
  - by rewrite values_proto_unbound.
  - rewrite (values_lookup_entry env schema Values.empty key typeStr) by done.
    by destruct (entry_value JSON_parse env (key, typeStr)).
Qed.

(** X14: over a schema with distinct keys in which no entry throws, for
    an entry whose read gives [undefined] or the empty string: if its
    descriptor has no trailing [?], each loop records exactly one error for
    its key, the missing-value error in the loop's own words, and binds
    nothing to the key; if the descriptor has a trailing [?], no error is
    recorded for the key and the key, unless it is [__proto__], is bound to
    [undefined]. *)
Theorem falsy_value_required_or_optional (schema : EnvSchema) env key typeStr :
  NoDup schema.*1 →
  (key, typeStr) ∈ schema →
  falsy (Env.get env key) = true →
  no_throw env schema →
  ∃ errors1 values1 result,
    createEnvValidator_loop JSON_parse schema env = Normal (errors1, values1)
    ∧ validateEnv JSON_parse process_env schema (Some env) = Normal result
    ∧ ((∀ base, typeStr ≠ base +:+ "?") →
       filter (λ e, ValidationError.key e = key) errors1
       = [ValidationError.mk key typeStr (Env.get env key)
            (missing_createEnvValidator key)]
       ∧ filter (λ e, ValidationError.key e = key) (ValidationResult.errors result)
         = [ValidationError.mk key typeStr (Env.get env key)
              (missing_validateEnv key)]
       ∧ Values.bound values1 !! key = None
       ∧ Values.bound (ValidationResult.values result) !! key = None)
    ∧ ((∃ base, typeStr = base +:+ "?") →
       filter (λ e, ValidationError.key e = key) errors1 = []
       ∧ filter (λ e, ValidationError.key e = key) (ValidationResult.errors result) = []
       ∧ (key ≠ "__proto__" →
          Values.bound values1 !! key = Some VUndefined
          ∧ Values.bound (ValidationResult.values result) !! key = Some VUndefined)).
Proof.
  intros Hnd Hin Hf Hn. destruct (loops_return env schema Hn) as [-> ->].
  do 3 eexists. split; [reflexivity |]. split; [reflexivity |].
  cbn [ValidationResult.values ValidationResult.errors].
  rewrite !(errors_filter_key _ env schema key typeStr) by done.
  rewrite !(values_lookup_key env schema key typeStr) by done.
  unfold entry_error, entry_value. split.
  - intros Hno. rewrite verdict_missing by done.
    by destruct (decide (key = "__proto__")).
  - intros [base ->]. rewrite verdict_absent by done.
    do 2 (split; [done |]). intros Hne. by rewrite decide_False.
Qed.

(** X15: over a schema with distinct keys in which no entry throws, the
    keys of the error list and the keys of the value mapping are disjoint,
    in both loops; an optional key whose read gives [undefined] or the
    empty string has no error and, unless it is [__proto__], is bound to
    [undefined]. *)
Theorem errors_values_disjoint_on_return (schema : EnvSchema) env :
  NoDup schema.*1 →
  no_throw env schema →
  ∃ errors1 values1 result,
    createEnvValidator_loop JSON_parse schema env = Normal (errors1, values1)
    ∧ validateEnv JSON_parse process_env schema (Some env) = Normal result
    ∧ (∀ key, key ∈ ValidationError.key <$> errors1 →
         Values.bound values1 !! key = None)
    ∧ (∀ key, key ∈ ValidationError.key <$> ValidationResult.errors result →
         Values.bound (ValidationResult.values result) !! key = None)
    ∧ (∀ key base,
         (key, base +:+ "?") ∈ schema →
         falsy (Env.get env key) = true →
         (key ∉ ValidationError.key <$> errors1)
         ∧ (key ∉ ValidationError.key <$> ValidationResult.errors result)
         ∧ (key ≠ "__proto__" →
            Values.bound values1 !! key = Some VUndefined
            ∧ Values.bound (ValidationResult.values result) !! key
              = Some VUndefined)).
Proof.
  intros Hnd Hn. destruct (loops_return env schema Hn) as [-> ->].
  do 3 eexists. split; [reflexivity |]. split; [reflexivity |].
  cbn [ValidationResult.values ValidationResult.errors].
  assert (∀ missing key,
            key ∈ ValidationError.key
                    <$> omap (entry_error JSON_parse missing env) schema →
            Values.bound (fold_left (store_value JSON_parse env) schema Values.empty)
              !! key = None) as Hdisj.
  { intros missing key (t & Hin & [e He])%errors_key_elem_of.
    rewrite (values_lookup_key env schema key t) by done.
    destruct (decide (key = "__proto__")); [done |].
    destruct (entry_value JSON_parse env (key, t)) as [v|] eqn:Ev; [| done].
    destruct (entry_error_and_value _ _ _ _ _ He Ev). }
  split; [apply Hdisj |]. split; [apply Hdisj |].
  intros key base Hin Hf.
  assert (∀ missing,
            key ∉ ValidationError.key
                    <$> omap (entry_error JSON_parse missing env) schema) as Hno.
  { intros missing (t & Hin' & [e He])%errors_key_elem_of.
    assert (t = base +:+ "?") as -> by exact (schema_key_unique _ _ _ _ Hnd Hin' Hin).
    unfold entry_error in He. by rewrite verdict_absent in He. }
  split; [apply Hno |]. split; [apply Hno |].
  intros Hne.
  rewrite (values_lookup_key env schema key (base +:+ "?")) by done.
  rewrite decide_False by done.
  unfold entry_value. by rewrite verdict_absent.
Qed.

(** *** The callback *)

(** X16: with an [onError] callback supplied, [createEnvValidator]
    calls it when and only when the loop returned with an error recorded:
    once, with the whole error list, whatever [throwOnError] is; the
    composite error is raised after the call, and only if the call
    returned.  When the loop throws, the callback is not called and the
    exception of the loop leaves [createEnvValidator]. *)
Theorem onError_called_once_after_loop (schema : EnvSchema)
  (throwOnError : option bool) (env : option Env.t) :
  match createEnvValidator_loop JSON_parse schema (default process_env env) with
  | Normal (errors, values) =>
      (∀ (W : Type) (onError : list ValidationError.t → W → W * Completion unit)
         (w : W),
         createEnvValidator JSON_parse process_env schema
           (Some (ValidatorOptions.mk throwOnError env (Some onError))) w
         = match errors with
           | [] => (w, Normal values)
           | _ :: _ =>
               ((onError errors w).1,
                match (onError errors w).2 with
                | Abrupt e => Abrupt e
                | Normal _ =>
                    if default true throwOnError
                    then Abrupt (ThrowError (fullMessage errors))
                    else Normal values
                end)
           end)
      ∧ (∀ log,
           (createEnvValidator JSON_parse process_env schema
              (Some (ValidatorOptions.mk throwOnError env (Some record_call))) log).1
           = log ++ match errors with
                    | [] => []
                    | _ :: _ => [errors]
                    end)
  | Abrupt e =>
      ∀ (W : Type) (onError : list ValidationError.t → W → W * Completion unit)
        (w : W),
        createEnvValidator JSON_parse process_env schema
          (Some (ValidatorOptions.mk throwOnError env (Some onError))) w
        = (w, Abrupt e)
  end.
Proof.
  unfold createEnvValidator.
  cbn [default from_option id ValidatorOptions.env ValidatorOptions.throwOnError
       ValidatorOptions.onError].
  destruct (createEnvValidator_loop JSON_parse schema (from_option id process_env env))
    as [[errors values]|e]; [| done].
  assert (∀ (W : Type) (onError : list ValidationError.t → W → W * Completion unit)
            (w : W),
            (if (0 <? length errors)%nat
             then let '(w1, called) := onError errors w in
                  match called with
                  | Normal _ =>
                      if from_option id true throwOnError
                      then (w1, Abrupt (ThrowError (fullMessage errors)))
                      else (w1, Normal values)
                  | Abrupt e => (w1, Abrupt e)
                  end
             else (w, Normal values))
            = match errors with
              | [] => (w, Normal values)
              | _ :: _ =>
                  ((onError errors w).1,
                   match (onError errors w).2 with
                   | Abrupt e => Abrupt e
                   | Normal _ =>
                       if from_option id true throwOnError
                       then Abrupt (ThrowError (fullMessage errors))
                       else Normal values
                   end)
              end) as Hcall.
  { intros W onError w.
    destruct errors as [|e errors']; [done |].
    cbn [length Nat.ltb Nat.leb].
    destruct (onError (e :: errors') w) as [w1 [[]|thrown]]; cbn [fst snd]; [| done].
    by destruct throwOnError as [[]|]. }
  split; [exact Hcall |].
  intros log. rewrite Hcall.
  destruct errors; [by rewrite app_nil_r | done].
Qed.

(** *** Round trip on [string] schemas *)

Lemma Values_eq (values1 values2 : Values.t) :
  Values.bound values1 = Values.bound values2 →
  Values.prototype values1 = Values.prototype values2 →
  values1 = values2.
Proof. destruct values1, values2. simpl. by intros -> ->. Qed.

Lemma values_lookup_same env (schema : EnvSchema) values k v :
  k ≠ "__proto__" →
  (∀ t, (k, t) ∈ schema → entry_value JSON_parse env (k, t) = Some v) →
  Values.bound (fold_left (store_value JSON_parse env) schema values) !! k
  = if decide (k ∈ schema.*1) then Some v else Values.bound values !! k.
Proof.
  intros Hk.
  revert values. induction schema as [|[k' t'] schema IH]; intros values Hall.
  - done.
  - cbn [fold_left]. rewrite IH by (intros t Ht; apply Hall; by right).
    rewrite fmap_cons. cbn [fst].
    destruct (decide (k = k')) as [<- | Hne].
    + rewrite (decide_True (P := k ∈ k :: schema.*1)) by left.
      unfold store_value. rewrite (Hall t') by left. cbn [fst].
      rewrite bound_set_eq by done. by destruct (decide (k ∈ schema.*1)).
    + destruct (decide (k ∈ schema.*1)) as [Hin | Hnin].
      * by rewrite (decide_True (P := k ∈ k' :: schema.*1)) by by right.
      * rewrite (decide_False (P := k ∈ k' :: schema.*1))
          by (intros [? | ?]%elem_of_cons; done).
        by apply store_value_other.
Qed.

Lemma verdict_string env key value :
  Env.own env !! key = Some value → value ≠ "" →
  verdict JSON_parse env (key, "string") = Accepted (VStr value).
Proof.
  intros Henv Hv. unfold verdict. cbn [fst snd].
  change (parseTypeString "string") with (TypeString.mk "string" false).
  cbn [TypeString.type TypeString.optional].
  rewrite (Env_get_own env key value), falsy_false by done.
  cbn [validateValue_any].
  unfold validateValue. apply String.eqb_neq in Hv. by rewrite Hv.
Qed.

(** X17: on a schema whose descriptors are all [string] and whose keys
    do not include [__proto__], with a non-empty string held by the
    environment itself for every key, [validateEnv] returns the own
    properties of the environment restricted to the keys of the schema,
    the flag [true] and no error. *)
Theorem string_round_trip_ordinary_keys (schema : EnvSchema) (env : Env.t) :
  (∀ key typeStr, (key, typeStr) ∈ schema → typeStr = "string") →
  (∀ key, key ∈ schema.*1 →
     ∃ value, Env.own env !! key = Some value ∧ value ≠ "") →
  "__proto__" ∉ schema.*1 →
  validateEnv JSON_parse process_env schema (Some env)
  = Normal {| ValidationResult.valid := true;
              ValidationResult.errors := [];
              ValidationResult.values :=
                Values.mk (VStr <$> filter (λ kv, kv.1 ∈ schema.*1) (Env.own env))
                  VObjectPrototype |}.
Proof.
  intros Hstr Hpresent Hproto.
  assert (∀ k t, (k, t) ∈ schema →
            ∃ v, Env.own env !! k = Some v ∧ v ≠ ""
                 ∧ verdict JSON_parse env (k, t) = Accepted (VStr v)) as Hverdict.
  { intros k t Hin. assert (t = "string") as -> by eauto.
    destruct (Hpresent k) as (v & Hv & Hne).
    { apply list_elem_of_fmap. by exists (k, "string"). }
    exists v. by rewrite (verdict_string env k v). }
  assert (no_throw env schema) as Hn.
  { apply Forall_forall. intros [k t] Hin.
    destruct (Hverdict k t Hin) as (v & _ & _ & Hv).
    destruct (throws_on env (k, t)) eqn:Ht; [| done].
    assert (verdict JSON_parse env (k, t) = Raised no_toLowerCase) as Hr
      by (by apply verdict_raised).
    congruence. }
  destruct (loops_return env schema Hn) as [_ ->].
  assert (omap (entry_error JSON_parse missing_validateEnv env) schema = []) as ->.
  { apply elem_of_nil_inv. intros e ([k t] & Hin & He)%errors_elem_of.
    destruct (Hverdict k t Hin) as (v & _ & _ & Hv).
    unfold entry_error in He. by rewrite Hv in He. }
  cbn [length Nat.eqb]. f_equal. f_equal.
  apply Values_eq; cbn [Values.bound Values.prototype].
  - apply map_eq. intros k.
    rewrite lookup_fmap, map_lookup_filter. cbn [fst].
    destruct (decide (k ∈ schema.*1)) as [Hin | Hnin].
    + destruct (Hpresent k Hin) as (v & Hv & Hne).
      rewrite (values_lookup_same env schema Values.empty k (VStr v)).
      * rewrite decide_True by done. rewrite Hv. simpl.
        by rewrite option_guard_True.
      * intros ->. done.
      * intros t Ht. destruct (Hverdict k t Ht) as (v' & Hv' & _ & Hver).
        unfold entry_value. rewrite Hver. congruence.
    + rewrite values_lookup_other by done.
      cbn [Values.bound Values.empty]. rewrite lookup_empty.
      destruct (Env.own env !! k) as [v|]; [| done]. simpl.
      by rewrite option_guard_False.
  - by rewrite values_prototype_other.
Qed.

(** *** White space under [number] *)

(** X18: over a schema with distinct keys in which no entry throws, for
    an entry with base tag [number] and a key other than [__proto__] whose
    raw value, held by the environment itself, is non-empty and made of
    white space only: the raw value is not taken for a missing one and is
    coerced to the number [+0]; the key is bound to [0] in the value
    mappings of both loops and no error is recorded for it. *)
Theorem whitespace_number_bound_to_zero (schema : EnvSchema) env key typeStr value :
  NoDup schema.*1 →
  (key, typeStr) ∈ schema →
  TypeString.type (parseTypeString typeStr) = "number" →
  Env.own env !! key = Some value →
  value ≠ "" →
  StrWhiteSpace (list_ascii_of_string value) →
  key ≠ "__proto__" →
  no_throw env schema →
  falsy (Env.get env key) = false
  ∧ validateValue JSON_parse (Some value) "number"
    = Normal (Validation.mk true (VNum (S754_zero false)) None)
  ∧ (∃ errors1 values1 result,
       createEnvValidator_loop JSON_parse schema env = Normal (errors1, values1)
       ∧ validateEnv JSON_parse process_env schema (Some env) = Normal result
       ∧ Values.bound values1 !! key = Some (VNum (S754_zero false))
       ∧ Values.bound (ValidationResult.values result) !! key
         = Some (VNum (S754_zero false))
       ∧ (key ∉ ValidationError.key <$> errors1)
       ∧ (key ∉ ValidationError.key <$> ValidationResult.errors result)).
Proof.
  intros Hnd Hin Hty Henv Hv Hws Hne Hn.
  assert (validateValue JSON_parse (Some value) "number"
          = Normal (Validation.mk true (VNum (S754_zero false)) None)) as Hval.
  { rewrite validateValue_number_eq by done.
    by rewrite JsNumberFacts.Number_ws. }
  pose proof (Env_get_own env key value Henv) as Hget.
  split; [rewrite Hget; by apply falsy_false |]. split; [done |].
  destruct (loops_return env schema Hn) as [-> ->].
  do 3 eexists. split; [reflexivity |]. split; [reflexivity |].
  assert (verdict JSON_parse env (key, typeStr) = Accepted (VNum (S754_zero false)))
    as Hverdict.
  { unfold verdict. cbn [fst snd]. rewrite Hget, falsy_false, Hty by done.
    cbn [validateValue_any]. by rewrite Hval. }
  cbn [ValidationResult.values ValidationResult.errors default].
  rewrite !(values_lookup_key env schema key typeStr) by done.
  rewrite decide_False by done.
  unfold entry_value. rewrite Hverdict.
  split; [done |]. split; [done |].
  split; intros (t & Hin' & [e He])%errors_key_elem_of.
  all: assert (t = typeStr) as -> by exact (schema_key_unique _ _ _ _ Hnd Hin' Hin).
  all: unfold entry_error in He; by rewrite Hverdict in He.
Qed.

(** *** Inherited members, tag by tag *)

Lemma Member_text_NaN key m :
  Object_prototype_get key = PInherited m →
  isNaN (Number (Member_text m)) = true.
Proof.
  intros [Hin ->]%Object_prototype_get_inherited.
  unfold Object_prototype_keys, Object_prototype_functions in Hin.
  repeat (apply elem_of_cons in Hin as [-> | Hin]; [vm_compute; reflexivity |]).
  by apply elem_of_nil in Hin.
Qed.

Lemma per_key_body_truthy missing env errors values key typeStr :
  falsy (Env.get env key) = false →
  per_key_body JSON_parse missing env (errors, values) (key, typeStr)
  = (validation <- validateValue_any JSON_parse (Env.get env key)
                     (TypeString.type (parseTypeString typeStr)) ;;
     if negb (Validation.valid validation) then
       Normal (errors ++ [ValidationError.mk key typeStr (Env.get env key)
                            (or_else (Validation.reason validation)
                               "Validation failed")],
               values)
     else Normal (errors, Values.set values key (Validation.parsed validation)))%completion.
Proof. intros Hf. unfold per_key_body. by rewrite Hf. Qed.

(** X19: when the read of a key gives an inherited member, the key is
    one of the twelve that [Object.prototype] answers and the environment
    has no property of that name of its own.  The member is not taken for a missing value,
    whether the entry is optional or not.  In both loops, under base tag
    [string] the entry is accepted and the member itself is written to
    [values]; under base tag [number] the member reads as [NaN] and the
    entry is rejected with a reason that quotes its text; under base tag
    [boolean] the iteration throws the [TypeError]. *)
Theorem inherited_member_by_tag env key m :
  Env.get env key = PInherited m →
  key ∈ Object_prototype_keys
  ∧ Env.own env !! key = None
  ∧ (key ∉ Env.undefined_keys env)
  ∧ falsy (Env.get env key) = false
  ∧ isNaN (Number (Member_text m)) = true
  ∧ (∀ typeStr errors values,
       TypeString.type (parseTypeString typeStr) = "string" →
       createEnvValidator_body JSON_parse env (errors, values) (key, typeStr)
       = Normal (errors, Values.set values key (to_value (PInherited m)))
       ∧ validateEnv_body JSON_parse env (errors, values) (key, typeStr)
         = Normal (errors, Values.set values key (to_value (PInherited m))))
  ∧ (∀ typeStr errors values,
       TypeString.type (parseTypeString typeStr) = "number" →
       createEnvValidator_body JSON_parse env (errors, values) (key, typeStr)
       = Normal (errors ++ [ValidationError.mk key typeStr (PInherited m)
                              (number_reason (Member_text m))],
                 values)
       ∧ validateEnv_body JSON_parse env (errors, values) (key, typeStr)
         = Normal (errors ++ [ValidationError.mk key typeStr (PInherited m)
                                (number_reason (Member_text m))],
                   values))
  ∧ (∀ typeStr errors values,
       TypeString.type (parseTypeString typeStr) = "boolean" →
       createEnvValidator_body JSON_parse env (errors, values) (key, typeStr)
       = Abrupt no_toLowerCase
       ∧ validateEnv_body JSON_parse env (errors, values) (key, typeStr)
         = Abrupt no_toLowerCase).
Proof.
  intros Hget.
  destruct (Env_get_inherited env key m Hget) as (Hown & Hundef & _ & Hproto).
  pose proof (Member_text_NaN key m Hproto) as Hnan.
  split; [by apply Object_prototype_get_inherited in Hproto as [? _] |].
  split; [done |]. split; [done |].
  assert (falsy (Env.get env key) = false) as Hf by (by rewrite Hget).
  split; [done |]. split; [done |].
  rewrite createEnvValidator_body_per_key, validateEnv_body_per_key.
  split; [| split]; intros typeStr errors values Hty;
    rewrite !per_key_body_truthy, Hty, Hget by done;
    unfold validateValue_any; cbn [String.eqb Ascii.eqb Bool.eqb bind].
  - done.
  - rewrite Hnan. done.
  - done.
Qed.

End ValidatorFacts.

(** ** Closed instances *)

Ltac not_listed :=
  let H := fresh in
  intros H;
  repeat (apply elem_of_cons in H as [H | H]; [discriminate H |]);
  apply elem_of_nil in H; exact H.

Ltac listed :=
  first [ apply list_elem_of_here | apply list_elem_of_further; listed ].

Lemma example_schema_NoDup : NoDup example_schema.*1.
Proof.
  unfold example_schema. cbn.
  repeat (apply NoDup_cons; split; [not_listed |]). apply NoDup_nil. done.
Defined.

Lemma example_schema_no_proto : "__proto__" ∉ example_schema.*1.
Proof. unfold example_schema. cbn. not_listed. Defined.

Lemma example_no_throw : no_throw example_env example_schema.
Proof. unfold no_throw, example_schema. repeat constructor. Defined.

Lemma recorded_errors_taxonomy_witness :
  ∃ errors1 values1 result,
    createEnvValidator_loop JSON_parse_sample example_schema example_env
    = Normal (errors1, values1)
    ∧ validateEnv JSON_parse_sample empty_env example_schema (Some example_env)
      = Normal result
    ∧ (∀ e, e ∈ errors1 →
         error_shape JSON_parse_sample missing_createEnvValidator example_env e)
    ∧ (∀ e, e ∈ ValidationResult.errors result →
         error_shape JSON_parse_sample missing_validateEnv example_env e).
Proof.
  apply (recorded_errors_taxonomy JSON_parse_sample empty_env
           example_schema example_env).
  exact example_no_throw.
Defined.

Lemma fallback_reasons_never_recorded_witness :
  ∃ errors1 values1 result,
    createEnvValidator_loop JSON_parse_sample example_schema example_env
    = Normal (errors1, values1)
    ∧ validateEnv JSON_parse_sample empty_env example_schema (Some example_env)
      = Normal result
    ∧ (∀ e, e ∈ errors1 ∨ e ∈ ValidationResult.errors result →
         ValidationError.reason e ≠ "Value is empty or undefined"
         ∧ ValidationError.reason e ≠ "Validation failed"
         ∧ ValidationError.reason e ≠ "").
Proof.
  apply (fallback_reasons_never_recorded JSON_parse_sample empty_env
           example_schema example_env).
  exact example_no_throw.
Defined.

Lemma bound_values_have_declared_type_witness :
  ∃ errors1 values1 result,
    createEnvValidator_loop JSON_parse_sample example_schema example_env
    = Normal (errors1, values1)
    ∧ validateEnv JSON_parse_sample empty_env example_schema (Some example_env)
      = Normal result
    ∧ (∀ key typeStr v,
         (key, typeStr) ∈ example_schema →
         Values.bound values1 !! key = Some v
         ∨ Values.bound (ValidationResult.values result) !! key = Some v →
         value_shape JSON_parse_sample example_env key typeStr v)
    ∧ Values.bound values1 !! "__proto__" = None
    ∧ Values.bound (ValidationResult.values result) !! "__proto__" = None.
Proof.
  apply (bound_values_have_declared_type JSON_parse_sample empty_env
           example_schema example_env).
  - exact example_schema_NoDup.
  - exact example_no_throw.
Defined.

Lemma schema_order_only_orders_errors_witness :
  match createEnvValidator_loop JSON_parse_sample example_schema example_env,
        createEnvValidator_loop JSON_parse_sample example_schema_swapped example_env
  with
  | Normal (errors1, values1), Normal (errors1', values1') =>
      values1 = values1' ∧ errors1 ≡ₚ errors1'
  | Abrupt e, Abrupt e' => e = e'
  | _, _ => False
  end
  ∧ match validateEnv JSON_parse_sample empty_env example_schema (Some example_env),
          validateEnv JSON_parse_sample empty_env example_schema_swapped
            (Some example_env)
    with
    | Normal result, Normal result' =>
        ValidationResult.values result = ValidationResult.values result'
        ∧ ValidationResult.errors result ≡ₚ ValidationResult.errors result'
        ∧ ValidationResult.valid result = ValidationResult.valid result'
    | Abrupt e, Abrupt e' => e = e'
    | _, _ => False
    end.
Proof.
  apply (schema_order_only_orders_errors JSON_parse_sample empty_env
           example_schema example_schema_swapped example_env).
  - apply perm_swap.
  - exact example_schema_NoDup.
Defined.

Lemma validateEnv_per_key_witness :
  ∃ result alone,
    validateEnv JSON_parse_sample empty_env example_schema (Some example_env)
    = Normal result
    ∧ validateEnv JSON_parse_sample empty_env [("PORT", "number")] (Some example_env)
      = Normal alone
    ∧ Values.bound (ValidationResult.values result) !! "PORT"
      = Values.bound (ValidationResult.values alone) !! "PORT"
    ∧ filter (λ e, ValidationError.key e = "PORT") (ValidationResult.errors result)
      = ValidationResult.errors alone.
Proof.
  apply (validateEnv_per_key JSON_parse_sample empty_env
           example_schema (Some example_env) "PORT" "number").
  - exact example_schema_NoDup.
  - unfold example_schema. listed.
  - exact example_no_throw.
Defined.

Lemma every_entry_counted_once_witness :
  ∃ errors1 values1 result,
    createEnvValidator_loop JSON_parse_sample example_schema example_env
    = Normal (errors1, values1)
    ∧ validateEnv JSON_parse_sample empty_env example_schema (Some example_env)
      = Normal result
    ∧ length errors1 + size (Values.bound values1) = length example_schema
    ∧ length (ValidationResult.errors result)
      + size (Values.bound (ValidationResult.values result))
      = length example_schema.
Proof.
  apply (every_entry_counted_once JSON_parse_sample empty_env
           example_schema example_env).
  - exact example_schema_NoDup.
  - exact example_schema_no_proto.
  - exact example_no_throw.
Defined.

Lemma validateEnv_aggregate_witness :
  ∃ result,
    validateEnv JSON_parse_sample empty_env example_schema (Some example_env)
    = Normal result
    ∧ (ValidationResult.valid result = true ↔ ValidationResult.errors result = [])
    ∧ ValidationResult.errors result
      = omap (entry_error JSON_parse_sample missing_validateEnv example_env)
          example_schema
    ∧ sublist ((λ e, (ValidationError.key e, ValidationError.expected e))
                 <$> ValidationResult.errors result) example_schema
    ∧ (∀ e, e ∈ ValidationResult.errors result →
         ValidationError.received e = Env.get example_env (ValidationError.key e))
    ∧ (∀ key, key ∈ example_schema.*1 → key ≠ "__proto__" →
         key ∈ ValidationError.key <$> ValidationResult.errors result
         ∨ is_Some (Values.bound (ValidationResult.values result) !! key))
    ∧ (∀ key, is_Some (Values.bound (ValidationResult.values result) !! key) →
         key ∈ example_schema.*1).
Proof.
  apply (validateEnv_aggregate JSON_parse_sample empty_env
           example_schema (Some example_env)).
  exact example_no_throw.
Defined.

Lemma falsy_value_required_or_optional_witness :
  (∃ errors1 values1 result,
     createEnvValidator_loop JSON_parse_sample example_schema example_env
     = Normal (errors1, values1)
     ∧ validateEnv JSON_parse_sample empty_env example_schema (Some example_env)
       = Normal result
     ∧ filter (λ e, ValidationError.key e = "API_KEY") errors1
       = [ValidationError.mk "API_KEY" "string" PUndefined
            (missing_createEnvValidator "API_KEY")]
     ∧ filter (λ e, ValidationError.key e = "API_KEY")
         (ValidationResult.errors result)
       = [ValidationError.mk "API_KEY" "string" PUndefined
            (missing_validateEnv "API_KEY")]
     ∧ Values.bound values1 !! "API_KEY" = None
     ∧ Values.bound (ValidationResult.values result) !! "API_KEY" = None)
  ∧ (∃ errors1 values1 result,
       createEnvValidator_loop JSON_parse_sample example_schema example_env
       = Normal (errors1, values1)
       ∧ validateEnv JSON_parse_sample empty_env example_schema (Some example_env)
         = Normal result
       ∧ filter (λ e, ValidationError.key e = "DEBUG") errors1 = []
       ∧ filter (λ e, ValidationError.key e = "DEBUG")
           (ValidationResult.errors result) = []
       ∧ Values.bound values1 !! "DEBUG" = Some VUndefined
       ∧ Values.bound (ValidationResult.values result) !! "DEBUG"
         = Some VUndefined).
Proof.
  split.
  - destruct (falsy_value_required_or_optional JSON_parse_sample empty_env
                example_schema example_env "API_KEY" "string"
                example_schema_NoDup)
      as (errors1 & values1 & result & H1 & H2 & Hrequired & _).
    + unfold example_schema. listed.
    + reflexivity.
    + exact example_no_throw.
    + exists errors1, values1, result.
      split; [exact H1 |]. split; [exact H2 |].
      apply Hrequired. intros base Hbase.
      assert (JsString.endsWith "string" "?" = true) as He
        by (apply JsStringFacts.endsWith_question; eauto).
      discriminate He.
  - destruct (falsy_value_required_or_optional JSON_parse_sample empty_env
                example_schema example_env "DEBUG" "boolean?"
                example_schema_NoDup)
      as (errors1 & values1 & result & H1 & H2 & _ & Hoptional).
    + unfold example_schema. listed.
    + reflexivity.
    + exact example_no_throw.
    + exists errors1, values1, result.
      split; [exact H1 |]. split; [exact H2 |].
      destruct Hoptional as (F1 & F2 & Hbound);
        [exists "boolean"; reflexivity |].
      split; [exact F1 |]. split; [exact F2 |].
      apply Hbound. discriminate.
Defined.

Lemma errors_values_disjoint_on_return_witness :
  ∃ errors1 values1 result,
    createEnvValidator_loop JSON_parse_sample example_schema example_env
    = Normal (errors1, values1)
    ∧ validateEnv JSON_parse_sample empty_env example_schema (Some example_env)
      = Normal result
    ∧ (∀ key, key ∈ ValidationError.key <$> errors1 →
         Values.bound values1 !! key = None)
    ∧ (∀ key, key ∈ ValidationError.key <$> ValidationResult.errors result →
         Values.bound (ValidationResult.values result) !! key = None)
    ∧ (∀ key base,
         (key, base +:+ "?") ∈ example_schema →
         falsy (Env.get example_env key) = true →
         (key ∉ ValidationError.key <$> errors1)
         ∧ (key ∉ ValidationError.key <$> ValidationResult.errors result)
         ∧ (key ≠ "__proto__" →
            Values.bound values1 !! key = Some VUndefined
            ∧ Values.bound (ValidationResult.values result) !! key
              = Some VUndefined)).
Proof.
  apply (errors_values_disjoint_on_return JSON_parse_sample empty_env
           example_schema example_env).
  - exact example_schema_NoDup.
  - exact example_no_throw.
Defined.

Lemma string_round_trip_ordinary_keys_witness :
  validateEnv JSON_parse_sample empty_env string_schema (Some string_env)
  = Normal {| ValidationResult.valid := true;
              ValidationResult.errors := [];
              ValidationResult.values :=
                Values.mk
                  (VStr <$> filter (λ kv, kv.1 ∈ string_schema.*1)
                              (Env.own string_env))
                  VObjectPrototype |}.
Proof.
  apply (string_round_trip_ordinary_keys JSON_parse_sample empty_env
           string_schema string_env).
  - intros key typeStr H. unfold string_schema in H.
    apply elem_of_cons in H as [H | H]; [by injection H |].
    apply elem_of_cons in H as [H | H]; [by injection H |].
    by apply elem_of_nil in H.
  - intros key H. unfold string_schema in H. cbn in H.
    apply elem_of_cons in H as [-> | H];
      [exists "postgres://localhost"; split; [reflexivity | discriminate] |].
    apply elem_of_cons in H as [-> | H];
      [exists "secret"; split; [reflexivity | discriminate] |].
    by apply elem_of_nil in H.
  - unfold string_schema. cbn. not_listed.
Defined.

Lemma whitespace_number_bound_to_zero_witness :
  falsy (Env.get example_env "PORT") = false
  ∧ validateValue JSON_parse_sample (Some " ") "number"
    = Normal (Validation.mk true (VNum (S754_zero false)) None)
  ∧ (∃ errors1 values1 result,
       createEnvValidator_loop JSON_parse_sample example_schema example_env
       = Normal (errors1, values1)
       ∧ validateEnv JSON_parse_sample empty_env example_schema (Some example_env)
         = Normal result
       ∧ Values.bound values1 !! "PORT" = Some (VNum (S754_zero false))
       ∧ Values.bound (ValidationResult.values result) !! "PORT"
         = Some (VNum (S754_zero false))
       ∧ ("PORT" ∉ ValidationError.key <$> errors1)
       ∧ ("PORT" ∉ ValidationError.key <$> ValidationResult.errors result)).
Proof.
  apply (whitespace_number_bound_to_zero JSON_parse_sample empty_env
           example_schema example_env "PORT" "number" " ").
  - exact example_schema_NoDup.
  - unfold example_schema. listed.
  - reflexivity.
  - reflexivity.
  - discriminate.
  - apply JsNumber.sws_1; [reflexivity | apply JsNumber.sws_nil].
  - discriminate.
  - exact example_no_throw.
Defined.

Lemma inherited_member_by_tag_witness :
  "toString" ∈ Object_prototype_keys
  ∧ Env.own empty_env !! "toString" = None
  ∧ ("toString" ∉ Env.undefined_keys empty_env)
  ∧ falsy (Env.get empty_env "toString") = false
  ∧ JsNumber.isNaN (JsNumber.Number (Member_text (Builtin "toString"))) = true
  ∧ (∀ typeStr errors values,
       TypeString.type (parseTypeString typeStr) = "string" →
       createEnvValidator_body JSON_parse_sample empty_env (errors, values)
         ("toString", typeStr)
       = Normal (errors,
                 Values.set values "toString"
                   (to_value (PInherited (Builtin "toString"))))
       ∧ validateEnv_body JSON_parse_sample empty_env (errors, values)
           ("toString", typeStr)
         = Normal (errors,
                   Values.set values "toString"
                     (to_value (PInherited (Builtin "toString")))))
  ∧ (∀ typeStr errors values,
       TypeString.type (parseTypeString typeStr) = "number" →
       createEnvValidator_body JSON_parse_sample empty_env (errors, values)
         ("toString", typeStr)
       = Normal (errors ++ [ValidationError.mk "toString" typeStr
                              (PInherited (Builtin "toString"))
                              (number_reason (Member_text (Builtin "toString")))],
                 values)
       ∧ validateEnv_body JSON_parse_sample empty_env (errors, values)
           ("toString", typeStr)
         = Normal (errors ++ [ValidationError.mk "toString" typeStr
                                (PInherited (Builtin "toString"))
                                (number_reason (Member_text (Builtin "toString")))],
                   values))
  ∧ (∀ typeStr errors values,
       TypeString.type (parseTypeString typeStr) = "boolean" →
       createEnvValidator_body JSON_parse_sample empty_env (errors, values)
         ("toString", typeStr)
       = Abrupt no_toLowerCase
       ∧ validateEnv_body JSON_parse_sample empty_env (errors, values)
           ("toString", typeStr)
         = Abrupt no_toLowerCase).
Proof.
  apply (inherited_member_by_tag JSON_parse_sample empty_env "toString"
           (Builtin "toString")).
  reflexivity.
Defined.
